(** * vue-easystore: the store factory of [src/index.js] and its second variant

    The repository wraps a definition object into a reactive Vue instance
    (the root store), lets the application attach named modules with [add],
    and exposes the computed aggregate [state].  This development embeds
    the two source variants,

      - [src/index.js]            as [Module Index], and
      - [src/unnamed/part_000]    as [Module Part000],

    over a common model of JavaScript values and of the part of the host
    framework (Vue 2.6) that the source relies on.

    Modelling conventions.

    - A JavaScript object is an association list in property enumeration
      order: array-index keys first, ascending, then the other string keys
      in insertion order ([obj_set] keeps that order).  Only own enumerable
      string-keyed properties exist in the model; prototype chains
      ([Object.prototype], [__proto__]) are not modelled.
    - Numbers are the integral ones and [NaN]; every other finite number
      behaves like a non-zero integer wherever the source looks at it.
    - Functions are opaque identities ([fn]).  What calling one yields is
      not determined by this repository and is taken from a [host] record:
      accessors and module factories are pure readers of the store.  The
      record also gives the members that Vue itself puts on an instance.
    - Of a Vue instance the model keeps the options it was created from
      and what property access does with them: proxies for the data keys,
      computed properties, the method [add].  Watchers and the [created]
      hook are recorded, not run, and Vue's own warnings are not logged.
    - Module containers live in a heap, so that [this[name]] and
      [storeFactory.modules[name]] are the same object.
    - An exception is the outcome [Thrown] (or [None] for a read), with the
      store as it was when the exception left. *)

From Stdlib Require Import ZArith NArith Ascii String List Bool Lia.
From stdpp Require Import base tactics option list strings pretty.

Set Default Proof Using "Type".
Set Warnings "-register-all".
Local Open Scope string_scope.

(** ** Values *)

(** Function identities: a user-supplied function, the root's bound [add]
    method, and the [state] getter that the constructor synthesises. *)
Inductive fn :=
| UserFn (id : nat)
| BoundAdd
| StateGetter.

Abbreviation loc := nat.

Inductive value :=
| VUndef
| VNull
| VBool (b : bool)
| VNum (z : Z)
| VNaN
| VStr (s : string)
| VFun (f : fn)
| VObj (o : list (string * value))
| VRef (l : loc).

Abbreviation object := (list (string * value)).

(** [if (v)]: JavaScript truthiness. *)
Definition truthy (v : value) : bool :=
  match v with
  | VUndef | VNull | VNaN => false
  | VBool b => b
  | VNum z => negb (z =? 0)%Z
  | VStr s => negb (s =? "")
  | VFun _ | VObj _ | VRef _ => true
  end.

(** lodash's [isFunction]. *)
Definition isFunction (v : value) : bool :=
  match v with
  | VFun _ => true
  | _ => false
  end.

(** ** Objects as ordered property lists *)

Definition digit_of (a : ascii) : option N :=
  let n := N_of_ascii a in
  if ((48 <=? n) && (n <=? 57))%N then Some (n - 48)%N else None.

Fixpoint digits_value (s : string) (acc : N) : option N :=
  match s with
  | EmptyString => Some acc
  | String a r =>
      match digit_of a with
      | Some d => digits_value r (acc * 10 + d)%N
      | None => None
      end
  end.

(** A key is an array index when it is the canonical decimal form of an
    integer below [2^32 - 1]; such keys enumerate first, in numeric order. *)
Definition array_index (k : string) : option N :=
  match k with
  | EmptyString => None
  | String a r =>
      if (Ascii.eqb a "0" && negb (r =? ""))%bool then None
      else
        match digits_value k 0 with
        | Some v => if (v <? 4294967295)%N then Some v else None
        | None => None
        end
  end.

Section Props.
Context {V : Type}.

(** [o[k]] restricted to own properties. *)
Fixpoint obj_get (k : string) (o : list (string * V)) : option V :=
  match o with
  | [] => None
  | (k', v) :: r => if k =? k' then Some v else obj_get k r
  end.

Definition obj_has (k : string) (o : list (string * V)) : bool :=
  match obj_get k o with
  | Some _ => true
  | None => false
  end.

Fixpoint obj_replace (k : string) (v : V) (o : list (string * V))
  : list (string * V) :=
  match o with
  | [] => []
  | (k', v') :: r =>
      if k =? k' then (k', v) :: r else (k', v') :: obj_replace k v r
  end.

Fixpoint insert_index (i : N) (k : string) (v : V) (o : list (string * V))
  : list (string * V) :=
  match o with
  | [] => [(k, v)]
  | (k', v') :: r =>
      match array_index k' with
      | Some j =>
          if (j <? i)%N then (k', v') :: insert_index i k v r
          else (k, v) :: o
      | None => (k, v) :: o
      end
  end.

(** [o[k] = v]: an existing property keeps its place, a new one is
    created at the place the enumeration order gives it. *)
Definition obj_set (k : string) (v : V) (o : list (string * V))
  : list (string * V) :=
  if obj_has k o then obj_replace k v o
  else
    match array_index k with
    | Some i => insert_index i k v o
    | None => o ++ [(k, v)]
    end.

(** [Object.keys(o).length] as a test. *)
Definition obj_nonempty (o : list (string * V)) : bool :=
  match o with
  | [] => false
  | _ :: _ => true
  end.
End Props.

(** [Object.assign(target, source)]. *)
Definition obj_assign (target source : object) : object :=
  fold_left (fun acc kv => obj_set kv.1 kv.2 acc) source target.

(** lodash's [fromPairs]; the reducer
    [(obj, [key, value]) => ({ ...obj, [key]: value })] of [src/index.js]
    builds the same object. *)
Definition fromPairs (arr : list (string * value)) : object :=
  fold_left (fun acc kv => obj_set kv.1 kv.2 acc) arr [].

(** Vue does not proxy data keys that start with [$] or [_]. *)
Definition is_reserved (k : string) : bool :=
  match k with
  | String a _ => (Ascii.eqb a "$" || Ascii.eqb a "_")%bool
  | EmptyString => false
  end.

Definition proxied (data : object) (k : string) : option value :=
  if is_reserved k then None else obj_get k data.

(** ** Strings as objects *)

Fixpoint string_chars (s : string) (i : nat) : object :=
  match s with
  | EmptyString => []
  | String a r =>
      (pretty i, VStr (String a EmptyString)) :: string_chars r (S i)
  end.

Definition string_prop (s k : string) : value :=
  match array_index k with
  | Some i =>
      match String.get (N.to_nat i) s with
      | Some a => VStr (String a EmptyString)
      | None => VUndef
      end
  | None =>
      if k =? "length" then VNum (Z.of_nat (String.length s)) else VUndef
  end.

(** ** Definition objects *)

(** A property of a definition object is a stored value or an accessor;
    an accessor may lack a getter ([set x(v) {}] alone). *)
Inductive prop :=
| Stored (v : value)
| Accessor (get : option fn).

Abbreviation definition := (list (string * prop)).

(** ** Containers and the store *)

(** The options a full reactive instance is created from. *)
Record instance := Instance {
  i_data : object;
  i_computed : list (string * fn);
  i_watch : value;
  i_created : value
}.

(** A module container: [new Vue({...})] or [Vue.observable(data)]. *)
Inductive container :=
| CVue (i : instance)
| CObs (data : object).

Record store := Store {
  root : instance;          (* the root instance: data, computed, watch *)
  own : object;             (* properties assigned on the root afterwards *)
  modules : object;         (* storeFactory.modules *)
  overrides : value;        (* the constructor's [state] argument *)
  context : value;          (* the constructor's [context] (part_000) *)
  heap : list container;    (* module containers, by reference *)
  console : list string     (* console.warn output *)
}.

(** How the host treats an assignment to one of its own members. *)
Inductive assign_mode :=
| Shadow      (* a plain property: the assignment stores *)
| Ignore      (* an accessor whose setter discards *)
| Reject.     (* an accessor without setter: TypeError in strict code *)

Record host_slot := HostSlot {
  hs_value : value;
  hs_assign : assign_mode
}.

(** What the host framework and the user's functions contribute. *)
Record host := Host {
  (* the value read through an accessor of a definition object *)
  read_accessor : fn -> definition -> value;
  (* evaluating a computed accessor against the root; [None]: it throws *)
  call_getter : fn -> store -> option value;
  (* [f(this, ...args)] for a module factory; [None]: the call throws or
     returns [null]/[undefined], which cannot be partitioned *)
  call_factory : fn -> store -> list value -> option definition;
  (* members the host itself defines on the root instance *)
  host_member : string -> option host_slot;
  (* members of a module instance other than [$data] and proxied data *)
  instance_member : instance -> string -> option value;
  (* own enumerable properties of a module instance *)
  instance_entries : instance -> object;
  (* properties of a function object *)
  function_member : fn -> string -> value
}.

Definition warn (msg : string) (s : store) : store :=
  Store (root s) (own s) (modules s) (overrides s) (context s) (heap s)
        (console s ++ [msg]).

Definition set_root_data (d : object) (s : store) : store :=
  Store (Instance d (i_computed (root s)) (i_watch (root s))
                  (i_created (root s)))
        (own s) (modules s) (overrides s) (context s) (heap s) (console s).

Definition set_own (o : object) (s : store) : store :=
  Store (root s) o (modules s) (overrides s) (context s) (heap s) (console s).

Definition set_modules (m : object) (s : store) : store :=
  Store (root s) (own s) m (overrides s) (context s) (heap s) (console s).

Definition set_heap (h : list container) (s : store) : store :=
  Store (root s) (own s) (modules s) (overrides s) (context s) h (console s).

(** ** Results of effectful code *)

Inductive outcome (A : Type) :=
| Returned (a : A)
| Thrown.
Arguments Returned {A} a.
Arguments Thrown {A}.

(** A method of the root: it returns or throws, and leaves a store. *)
Definition action (A : Type) := store -> outcome A * store.

Definition ret {A} (a : A) : action A := fun s => (Returned a, s).
Definition throw {A} : action A := fun s => (Thrown, s).

Definition bind {A B} (m : action A) (k : A -> action B) : action B :=
  fun s =>
    match m s with
    | (Returned a, s') => k a s'
    | (Thrown, s') => (Thrown, s')
    end.

(** Lifting a partial read: [None] is a thrown [TypeError]. *)
Definition lift {A} (r : store -> option A) : action A :=
  fun s =>
    match r s with
    | Some a => (Returned a, s)
    | None => (Thrown, s)
    end.

Definition modify (f : store -> store) : action unit :=
  fun s => (Returned tt, f s).

(** A write that may throw; the store is left as it was if it does. *)
Definition update (f : store -> option store) : action unit :=
  fun s =>
    match f s with
    | Some s' => (Returned tt, s')
    | None => (Thrown, s)
    end.

Declare Scope action_scope.
Delimit Scope action_scope with action.
Notation "'do' x <- m ; k" := (bind m (fun x => k))
  (at level 10, x name, m at level 100, k at level 200) : action_scope.
Notation "m ;; k" := (bind m (fun _ => k))
  (at level 100, k at level 200, right associativity) : action_scope.

(** [Array.prototype.forEach] with an effectful callback: an exception
    ends the loop and what was done before stays done. *)
Fixpoint forEach {A} (f : A -> action unit) (l : list A) : action unit :=
  match l with
  | [] => ret tt
  | x :: r => bind (f x) (fun _ => forEach f r)
  end.

Section Model.
Variable H : host.

(** ** Property reads *)

(** [v[k]]; [None] is the [TypeError] of reading off [null] or
    [undefined]. *)
Definition get_prop (h : list container) (v : value) (k : string)
  : option value :=
  match v with
  | VUndef | VNull => None
  | VBool _ | VNum _ | VNaN => Some VUndef
  | VStr s => Some (string_prop s k)
  | VFun f => Some (function_member H f k)
  | VObj o => Some (default VUndef (obj_get k o))
  | VRef l =>
      match h !! l with
      | Some (CObs d) => Some (default VUndef (obj_get k d))
      | Some (CVue i) =>
          if k =? "$data" then Some (VObj (i_data i))
          else
            match proxied (i_data i) k with
            | Some v => Some v
            | None => instance_member H i k
            end
      | None => None
      end
  end.

(** [Object.entries(v)]. *)
Definition entries_of (h : list container) (v : value) : option object :=
  match v with
  | VUndef | VNull => None
  | VBool _ | VNum _ | VNaN | VFun _ => Some []
  | VStr s => Some (string_chars s 0)
  | VObj o => Some o
  | VRef l =>
      match h !! l with
      | Some (CObs d) => Some d
      | Some (CVue i) => Some (instance_entries H i)
      | None => None
      end
  end.

(** [Object.entries(obj)] on a definition object reads every accessor. *)
Definition prop_value (obj : definition) (p : prop) : value :=
  match p with
  | Stored v => v
  | Accessor (Some g) => read_accessor H g obj
  | Accessor None => VUndef
  end.

Definition def_entries (obj : definition) : list (string * value) :=
  map (fun kp => (kp.1, prop_value obj kp.2)) obj.

(** [obj.watch]. *)
Definition def_get (obj : definition) (k : string) : value :=
  match obj_get k obj with
  | Some p => prop_value obj p
  | None => VUndef
  end.

(** [Object.getOwnPropertyDescriptor(obj, key).get]. *)
Definition descriptor_get (obj : definition) (k : string) : option fn :=
  match obj_get k obj with
  | Some (Accessor g) => g
  | _ => None
  end.

(** ** The computed aggregate [state]
    [src/index.js] lines 33-50, [src/unnamed/part_000] lines 33-48. *)

Definition filterFunctions (h : list container) (x : value) : option object :=
  e ← entries_of h x;
  Some (fromPairs (List.filter (fun kv => negb (isFunction kv.2)) e)).

(** [[name, filterFunctions(module.$data || module)]]. *)
Definition module_pair (h : list container) (nm : string * value)
  : option (string * value) :=
  d ← get_prop h nm.2 "$data";
  o ← filterFunctions h (if truthy d then d else nm.2);
  Some (nm.1, VObj o).

Definition state (s : store) : option object :=
  st ← filterFunctions (heap s) (VObj (i_data (root s)));
  ms ← mapM (module_pair (heap s)) (modules s);
  Some (obj_assign st (fromPairs ms)).

(** ** Property access on the root instance *)

(** [this[name]].  Vue defines, in this order, the method [add], a proxy
    for every data key that is not reserved (it replaces a method of that
    name), and a computed property for every computed key that is not yet
    [in] the instance.  A property assigned later hides what the instance
    inherits.  So the lookup goes: data proxy, assigned property, [add],
    the host's own members, computed property.  [None]: a getter threw. *)
Definition vm_get (s : store) (name : string) : option value :=
  if name =? "$data" then Some (VObj (i_data (root s)))
  else
    match proxied (i_data (root s)) name with
    | Some v => Some v
    | None =>
        match obj_get name (own s) with
        | Some v => Some v
        | None =>
            if name =? "add" then Some (VFun BoundAdd)
            else
              match host_member H name with
              | Some hs => Some (hs_value hs)
              | None =>
                  match obj_get name (i_computed (root s)) with
                  | Some StateGetter => VObj <$> state s
                  | Some g => call_getter H g s
                  | None => Some VUndef
                  end
              end
        end
    end.

(** [this[name] = v].  A proxied data key writes through to the data
    object; a computed property has a setter that stores nothing; every
    other name becomes (or already is) a plain own property.  [None]: the
    assignment throws.  Replacing [$data] itself is refused by the host;
    [add] never attempts it, as [$data] reads as an object. *)
Definition vm_set (name : string) (v : value) (s : store) : option store :=
  if name =? "$data" then None
  else if obj_has name (i_data (root s)) && negb (is_reserved name)
  then Some (set_root_data (obj_replace name v (i_data (root s))) s)
  else if obj_has name (own s) || (name =? "add")
  then Some (set_own (obj_set name v (own s)) s)
  else
    match host_member H name with
    | Some hs =>
        match hs_assign hs with
        | Shadow => Some (set_own (obj_set name v (own s)) s)
        | Ignore => Some s
        | Reject => None
        end
    | None =>
        if obj_has name (i_computed (root s)) then Some s
        else Some (set_own (obj_set name v (own s)) s)
    end.

(** [new Vue(...)] / [Vue.observable(data)]: a fresh container. *)
Definition alloc (c : container) : action value :=
  fun s => (Returned (VRef (length (heap s))), set_heap (heap s ++ [c]) s).

(** [this[name] = new Vue({...})] / [this[name] = Vue.observable(data)]. *)
Definition assign_new (name : string) (c : container) : action unit :=
  (do r <- alloc c; update (vm_set name r))%action.

(** [storeFactory.modules[name] = this[name]]. *)
Definition register (name : string) : action unit :=
  (do v <- lift (fun s => vm_get s name);
   modify (fun s => set_modules (obj_set name v (modules s)) s))%action.

(** [module(this, ...args)]. *)
Definition call_module (module : value) (args : list value)
  : store -> option definition :=
  fun s =>
    match module with
    | VFun f => call_factory H f s args
    | _ => None
    end.

Definition already_added (name : string) : string :=
  "Module with name " ++ name ++ " already added!".

(** ** The mutation surface: assignment to a plain field *)




(** A name whose assignment on the root stores the value: a proxied data
    key, an own property, a plain host member or a name not yet in use;
    not a computed property and not a host accessor. *)
Definition assignable (s : store) (name : string) : bool :=
  negb (name =? "$data")
  && (obj_has name (i_data (root s)) && negb (is_reserved name)
      || obj_has name (own s)
      || (name =? "add")
      || match host_member H name with
         | Some hs =>
             match hs_assign hs with
             | Shadow => true
             | _ => false
             end
         | None => negb (obj_has name (i_computed (root s)))
         end).
End Model.

(** A default parameter [state = {}]. *)
Definition default_object (state : value) : value :=
  match state with
  | VUndef => VObj []
  | _ => state
  end.

(** The first argument of [add]: a name (any primitive, as the property key
    it converts to), a plain mapping, or [null], whose [typeof] is
    ['object'] too. *)
Inductive name_arg :=
| Name (name : string)
| Modules (modules : object)
| NullName.

(** ** [src/index.js] *)
Module Index.

(** What [separate] returns: [{ computed, data, watch }]. *)
Record separated := Separated {
  computed : list (string * fn);
  data : object;
  watch : value
}.

Section WithHost.
Variable H : host.

(** The body of the [forEach] callback of [separate], lines 100-115.
    [state[key]] is read twice by the source; both reads give [sv]. *)
Definition separate_entry (h : list container) (obj : definition)
    (state : value) (acc : list (string * fn) * object) (kv : string * value)
  : option (list (string * fn) * object) :=
  let '(key, value) := kv in
  if key =? "watch" then Some acc
  else
    match descriptor_get obj key with
    | Some g => Some (obj_set key g acc.1, acc.2)
    | None =>
        sv ← get_prop H h state key;
        if truthy sv then Some (acc.1, obj_set key sv acc.2)
        else Some (acc.1, obj_set key value acc.2)
    end.

(** [separate(obj, state = {})], lines 94-118.  [None]: [state[key]]
    threw. *)
Definition separate (h : list container) (obj : definition) (state : value)
  : option separated :=
  let state := default_object state in
  let watch := def_get H obj "watch" in
  acc ← foldl (fun acc kv => a ← acc; separate_entry h obj state a kv)
            (Some ([], [])) (def_entries H obj);
  Some (Separated acc.1 acc.2 watch).

(** [new StoreFactory(base, state)], lines 19-51: the root instance with
    [state] merged into the computed options. *)
Definition StoreFactory (base : definition) (state : value) : option store :=
  let state := default_object state in
  sep ← separate [] base state;
  Some (Store (Instance (data sep)
                        (obj_set "state" StateGetter (computed sep))
                        (watch sep) VUndef)
              [] [] state VUndef [] []).

(** "Do the actual adding", lines 70-85. *)
Definition attach (name : string) (module : value) : action unit :=
  (do obj <- lift (call_module H module []);
   do sub <- lift (fun s => get_prop H (heap s) (overrides s) name);
   do sep <- lift (fun s => separate (heap s) obj sub);
   (if obj_nonempty (computed sep)
    then assign_new H name (CVue (Instance (data sep) (computed sep)
                                           (watch sep) VUndef))
    else assign_new H name (CObs (data sep))) ;;
   register H name)%action.

(** [add(name, module)] for a name that is not an object, lines 65-85. *)
Definition add_single (name : string) (module : value) : action unit :=
  (do cur <- lift (fun s => vm_get H s name);
   if truthy cur then modify (warn (already_added name))
   else attach name module)%action.

(** [this.add(name, module)] inside the bulk form: [this.add] is the
    method unless a data field named [add] hides it. *)
Definition this_add (name : string) (module : value) : action unit :=
  (do f <- lift (fun s => vm_get H s "add");
   match f with
   | VFun BoundAdd => add_single name module
   | _ => throw
   end)%action.

(** [add(name, module)], lines 53-87. *)
Definition add (name : name_arg) (module : value) : action unit :=
  match name with
  | Modules modules => forEach (fun nm => this_add nm.1 nm.2) modules
  | NullName => throw
  | Name name => add_single name module
  end.
End WithHost.
End Index.

(** ** [src/unnamed/part_000] *)
Module Part000.

(** What [separate] returns: [{ computed, data }]. *)
Record separated := Separated {
  computed : list (string * fn);
  data : object
}.

Section WithHost.
Variable H : host.

(** The body of the [forEach] callback of [separate], lines 97-109. *)
Definition separate_entry (h : list container) (obj : definition)
    (state : value) (acc : list (string * fn) * object)
    (kv : string * value)
  : option (list (string * fn) * object) :=
  let '(key, value) := kv in
  match descriptor_get obj key with
  | Some g => Some (obj_set key g acc.1, acc.2)
  | None =>
      sv ← get_prop H h state key;
      if truthy sv then Some (acc.1, obj_set key sv acc.2)
      else Some (acc.1, obj_set key value acc.2)
  end.

(** [separate(obj, state = {})], lines 92-112. *)
Definition separate (h : list container) (obj : definition) (state : value)
  : option separated :=
  let state := default_object state in
  acc ← foldl (fun acc kv => a ← acc; separate_entry h obj state a kv)
            (Some ([], [])) (def_entries H obj);
  Some (Separated acc.1 acc.2).

(** [new StoreFactory(base, state, context)], lines 20-49. *)
Definition StoreFactory (base : definition) (state context : value)
  : option store :=
  let state := default_object state in
  sep ← separate [] base state;
  Some (Store (Instance (data sep)
                        (obj_set "state" StateGetter (computed sep))
                        VUndef VUndef)
              [] [] state context [] []).

(** [Object.keys(computed).length || (data && data.created)], line 71. *)
Definition wants_instance (sep : separated) : bool :=
  obj_nonempty (computed sep)
  || truthy (default VUndef (obj_get "created" (data sep))).

(** "Do the actual adding", lines 68-83.  The field [created] becomes the
    hook of the instance and stays a data field. *)
Definition attach (name : string) (module : value) : action unit :=
  (do obj <- lift (fun s => call_module H module [context s] s);
   do sub <- lift (fun s => get_prop H (heap s) (overrides s) name);
   do sep <- lift (fun s => separate (heap s) obj sub);
   (if wants_instance sep
    then assign_new H name
           (CVue (Instance (data sep) (computed sep) VUndef
                    (default VUndef (obj_get "created" (data sep)))))
    else assign_new H name (CObs (data sep))) ;;
   register H name)%action.

(** [add(name, module)] for a name that is not an object, lines 63-83. *)
Definition add_single (name : string) (module : value) : action unit :=
  (do cur <- lift (fun s => vm_get H s name);
   if truthy cur then modify (warn (already_added name))
   else attach name module)%action.

Definition this_add (name : string) (module : value) : action unit :=
  (do f <- lift (fun s => vm_get H s "add");
   match f with
   | VFun BoundAdd => add_single name module
   | _ => throw
   end)%action.

(** [add(name, module)], lines 51-85. *)
Definition add (name : name_arg) (module : value) : action unit :=
  match name with
  | Modules modules => forEach (fun nm => this_add nm.1 nm.2) modules
  | NullName => throw
  | Name name => add_single name module
  end.
End WithHost.
End Part000.

(** ** Well-formed objects and stores *)

(** An object has each key once. *)
Definition distinct_keys {V} (o : list (string * V)) : Prop := NoDup o.*1.

(** The non-function value of a field, if any. *)
Definition plain_field (o : object) (k : string) : option value :=
  match obj_get k o with
  | Some v => if isFunction v then None else Some v
  | None => None
  end.

(** The fields a container holds. *)
Definition container_data (c : container) : object :=
  match c with
  | CVue i => i_data i
  | CObs d => d
  end.

(** A container whose fields are what the aggregate reads off it: a full
    instance, or an observable object without a truthy field [$data]. *)
Definition plain_container (c : container) : Prop :=
  match c with
  | CVue _ => True
  | CObs d => truthy (default VUndef (obj_get "$data" d)) = false
  end
  /\ distinct_keys (container_data c).

(** Every registry entry is such a container of the heap. *)
Definition plain_registry (s : store) : Prop :=
  Forall (fun nm => exists l c,
              nm.2 = VRef l /\ heap s !! l = Some c /\ plain_container c)
         (modules s).

(** The aggregate can read every registry entry. *)
Definition readable_registry (H : host) (s : store) : Prop :=
  Forall (fun nm => is_Some (module_pair H (heap s) nm)) (modules s).

(** An override object every property of which can be read: anything but
    [null], and [undefined] is replaced by [{}] before it is read. *)
Definition readable (H : host) (h : list container) (state : value) : Prop :=
  forall k, is_Some (get_prop H h state k).

(** ** What the claims speak of *)

(** What [descriptor.get] is for a property of the definition. *)
Definition getter_of (p : prop) : option fn :=
  match p with
  | Accessor g => g
  | Stored _ => None
  end.

(** Key [key], declared as [p], is routed to exactly one output: a getter
    to the derived fields, unevaluated; anything else to the plain fields,
    with the override [state[key]] if that is truthy and the definition's
    own value otherwise. *)
Definition routed (H : host) (h : list container) (obj : definition)
    (state : value) (key : string) (p : prop)
    (computed : list (string * fn)) (data : object) : Prop :=
  match getter_of p with
  | Some g => obj_get key computed = Some g /\ obj_get key data = None
  | None =>
      obj_get key computed = None
      /\ exists sv,
           get_prop H h state key = Some sv
           /\ obj_get key data
              = Some (if truthy sv then sv else prop_value H obj p)
  end.


(** Two stores that differ at most in what the root holds under [name],
    in the heap, the registry and the console. *)
Definition same_except (name : string) (s s' : store) : Prop :=
  i_computed (root s') = i_computed (root s)
  /\ (i_data (root s')).*1 = (i_data (root s)).*1
  /\ overrides s' = overrides s
  /\ context s' = context s
  /\ forall k, k <> name ->
       obj_get k (i_data (root s')) = obj_get k (i_data (root s))
       /\ obj_get k (own s') = obj_get k (own s).

(** A store [s'] that still holds what [s] held: the containers and the
    console lines of [s] are there, in place and followed by what was
    added; every name registered or assigned on the root still is; the
    root's getters and field names, the overrides and the context are the
    same. *)
Definition extends (s s' : store) : Prop :=
  heap s `prefix_of` heap s'
  /\ console s `prefix_of` console s'
  /\ (forall k, is_Some (obj_get k (modules s)) ->
                is_Some (obj_get k (modules s')))
  /\ (forall k, is_Some (obj_get k (own s)) -> is_Some (obj_get k (own s')))
  /\ i_computed (root s') = i_computed (root s)
  /\ (i_data (root s')).*1 = (i_data (root s)).*1
  /\ overrides s' = overrides s
  /\ context s' = context s.

(** ** The partition loop, once for both variants

    [route skip] is the loop body of [separate] with the test that skips a
    key left open: [src/index.js] skips [watch], the other variant skips
    nothing.  It is used to reason about both variants at once. *)

Definition route (H : host) (skip : string -> bool) (h : list container)
    (obj : definition) (state : value) (acc : list (string * fn) * object)
    (kv : string * value) : option (list (string * fn) * object) :=
  if skip kv.1 then Some acc
  else
    match descriptor_get obj kv.1 with
    | Some g => Some (obj_set kv.1 g acc.1, acc.2)
    | None =>
        sv ← get_prop H h state kv.1;
        Some (acc.1, obj_set kv.1 (if truthy sv then sv else kv.2) acc.2)
    end.

Definition partition (H : host) (skip : string -> bool) (h : list container)
    (obj : definition) (state : value) (es : list (string * value))
  : option (list (string * fn) * object) :=
  foldl (fun acc kv => a ← acc; route H skip h obj state a kv)
        (Some ([], [])) es.

Definition skip_watch (k : string) : bool := k =? "watch".
Definition skip_nothing (k : string) : bool := false.

(** ** [add], once for both variants

    Both variants of [add] first compute a container from the module
    factory and the overrides, without changing the store, and then run
    the same two assignments.  [add_built] is [add_single] with the first
    part left open; it is used to reason about both variants at once. *)

Definition Index_container (sep : Index.separated) : container :=
  if obj_nonempty (Index.computed sep)
  then CVue (Instance (Index.data sep) (Index.computed sep)
                      (Index.watch sep) VUndef)
  else CObs (Index.data sep).

Definition Part000_container (sep : Part000.separated) : container :=
  if Part000.wants_instance sep
  then CVue (Instance (Part000.data sep) (Part000.computed sep) VUndef
               (default VUndef (obj_get "created" (Part000.data sep))))
  else CObs (Part000.data sep).

Definition Index_build (H : host) (module : value) (name : string)
    (s : store) : option container :=
  obj ← call_module H module [] s;
  sub ← get_prop H (heap s) (overrides s) name;
  sep ← Index.separate H (heap s) obj sub;
  Some (Index_container sep).

Definition Part000_build (H : host) (module : value) (name : string)
    (s : store) : option container :=
  obj ← call_module H module [context s] s;
  sub ← get_prop H (heap s) (overrides s) name;
  sep ← Part000.separate H (heap s) obj sub;
  Some (Part000_container sep).

Definition attach_built (H : host) (build : string -> store -> option container)
    (name : string) : action unit :=
  (do c <- lift (build name);
   assign_new H name c ;; register H name)%action.

Definition add_built (H : host) (build : string -> store -> option container)
    (name : string) : action unit :=
  (do cur <- lift (fun s => vm_get H s name);
   if truthy cur then modify (warn (already_added name))
   else attach_built H build name)%action.

(** ** A worked example

    A host whose accessors read as [undefined], with four module
    factories: a module with a field and a method, a module with a derived
    field, a module whose only field is named [$data], and a module whose
    only field is a [created] hook.  Any other factory throws. *)

Definition example_factory (f : fn) : option definition :=
  match f with
  | UserFn 0 => Some [("y", Stored (VNum 2)); ("f", Stored (VFun (UserFn 9)))]
  | UserFn 1 => Some [("y", Stored (VNum 2)); ("z", Accessor (Some (UserFn 7)))]
  | UserFn 2 => Some [("$data", Stored (VNum 5))]
  | UserFn 3 => Some [("created", Stored (VFun (UserFn 8)))]
  | _ => None
  end.

Definition example_host : host :=
  Host (fun _ _ => VUndef) (fun _ _ => Some VUndef)
       (fun f _ _ => example_factory f)
       (fun _ => None) (fun _ _ => Some VUndef) (fun _ => [])
       (fun _ _ => VUndef).

(** [new Store({ x: 1, g() {...} })]. *)
Definition example_base : definition :=
  [("x", Stored (VNum 1)); ("g", Stored (VFun (UserFn 6)))].

Definition example_root : store :=
  Store (Instance [("x", VNum 1); ("g", VFun (UserFn 6))]
                  [("state", StateGetter)] VUndef VUndef)
        [] [] (VObj []) VUndef [] [].

(** ... after [add('m', () => ({ y: 2, f() {...} }))]. *)
Definition example_store : store :=
  Store (Instance [("x", VNum 1); ("g", VFun (UserFn 6))]
                  [("state", StateGetter)] VUndef VUndef)
        [("m", VRef 0)] [("m", VRef 0)] (VObj []) VUndef
        [CObs [("y", VNum 2); ("f", VFun (UserFn 9))]] [].

(** [new Store({ m: 0, x: 1 })] after [add('m', () => ({ y: 2, ... }))]:
    the root field [m] was falsy, so the module was attached, through the
    data proxy. *)
Definition example_shadowed : store :=
  Store (Instance [("m", VRef 0); ("x", VNum 1)]
                  [("state", StateGetter)] VUndef VUndef)
        [] [("m", VRef 0)] (VObj []) VUndef
        [CObs [("y", VNum 2); ("f", VFun (UserFn 9))]] [].

(** The definition [{ a: 1 }] of testable property 2. *)
Definition definition_a : definition := [("a", Stored (VNum 1))].


(** The three entries of a bulk call; the factory of the second throws. *)
Definition example_modules : object :=
  [("m", VFun (UserFn 0)); ("q", VFun (UserFn 5)); ("r", VFun (UserFn 1))].

(** ** The plugin: [install] and the store injection
    [src/index.js] lines 121-147, [src/unnamed/part_000] lines 115-141.

    The module keeps one flag [installed] for the whole process.  A Vue
    constructor is told apart from another by a number; [mixed] lists the
    constructors that [Vue.mixin] was called on, in call order. *)

Record plugin := Plugin {
  installed : bool;
  mixed : list nat
}.

(** The state of a freshly loaded module: [let installed = false]. *)
Definition plugin_loaded : plugin := Plugin false [].

(** [install(Vue, options = {})]. *)
Definition install (vue : nat) (p : plugin) : plugin :=
  if installed p then p
  else Plugin true (mixed p ++ [vue]).

(** A component as the mixin sees it: [this.$options.store],
    [this.$options.parent] and the property [this.$store], absent at
    first. *)
Inductive component := Component {
  opt_store : value;
  opt_parent : option component;
  dollar_store : option value
}.

(** [this.$store = v]. *)
Definition set_dollar_store (v : value) (this : component) : component :=
  Component (opt_store this) (opt_parent this) (Some v).

(** The hook [beforeCreate] of the mixin.  [call f] is what [f()] returns
    for a store option that is a function; [None]: it throws. *)
Definition beforeCreate (call : fn -> option value) (this : component)
  : option component :=
  if truthy (opt_store this) then
    match opt_store this with
    | VFun f => v ← call f; Some (set_dollar_store v this)
    | v => Some (set_dollar_store v this)
    end
  else
    match opt_parent this with
    | Some parent =>
        let inherited := default VUndef (dollar_store parent) in
        if truthy inherited then Some (set_dollar_store inherited this)
        else Some this
    | None => Some this
    end.

(** Vue creates a component with its options and its parent, and runs the
    hook on it before anything else. *)
Definition create (call : fn -> option value) (parent : option component)
    (store : value) : option component :=
  beforeCreate call (Component store parent None).

(** A line of descent: each component is the parent of the next. *)
Fixpoint create_chain (call : fn -> option value) (parent : option component)
    (stores : list value) : option (list component) :=
  match stores with
  | [] => Some []
  | store :: rest =>
      c ← create call parent store;
      cs ← create_chain call (Some c) rest;
      Some (c :: cs)
  end.

(** ** Object facts *)

Section ObjectFacts.
Context {V : Type}.
Implicit Types (o : list (string * V)) (k : string) (v : V).

Lemma obj_get_app k o1 o2 :
  obj_get k (o1 ++ o2) =
  match obj_get k o1 with Some v => Some v | None => obj_get k o2 end.
Proof.
  induction o1 as [|[k1 v1] o1 IH]; simpl; [done|].
  destruct (k =? k1); [done|apply IH].
Qed.

Lemma obj_get_replace k k' v o :
  obj_get k' (obj_replace k v o) =
  if k' =? k then (if obj_has k o then Some v else None) else obj_get k' o.
Proof.
  unfold obj_has. induction o as [|[k1 v1] o IH]; simpl.
  - by destruct (k' =? k).
  - destruct (k =? k1) eqn:E1; simpl.
    + apply String.eqb_eq in E1 as ->.
      destruct (k' =? k1) eqn:E2; done.
    + destruct (k' =? k1) eqn:E2.
      * apply String.eqb_eq in E2 as ->.
        rewrite String.eqb_sym, E1. done.
      * apply IH.
Qed.

Lemma obj_get_insert_index i k k' v o :
  obj_get k o = None ->
  obj_get k' (insert_index i k v o) =
  if k' =? k then Some v else obj_get k' o.
Proof.
  induction o as [|[k1 v1] o IH]; simpl; intros Hk.
  - by destruct (k' =? k).
  - destruct (k =? k1) eqn:E1; [done|].
    destruct (array_index k1) as [j|]; [destruct (j <? i)%N|]; simpl;
      try by destruct (k' =? k).
    destruct (k' =? k1) eqn:E2.
    + apply String.eqb_eq in E2 as ->.
      by rewrite String.eqb_sym, E1.
    + by apply IH.
Qed.

Lemma obj_get_set k k' v o :
  obj_get k' (obj_set k v o) = if k' =? k then Some v else obj_get k' o.
Proof.
  unfold obj_set, obj_has.
  destruct (obj_get k o) eqn:Hk.
  - rewrite obj_get_replace. unfold obj_has. rewrite Hk. done.
  - destruct (array_index k).
    + by apply obj_get_insert_index.
    + rewrite obj_get_app. simpl.
      destruct (k' =? k) eqn:E.
      * apply String.eqb_eq in E as ->. by rewrite Hk.
      * by destruct (obj_get k' o).
Qed.

Lemma obj_get_set_eq k v o : obj_get k (obj_set k v o) = Some v.
Proof. by rewrite obj_get_set, String.eqb_refl. Qed.

Lemma obj_get_set_ne k k' v o :
  k' <> k -> obj_get k' (obj_set k v o) = obj_get k' o.
Proof.
  intros Hne. rewrite obj_get_set.
  by apply String.eqb_neq in Hne as ->.
Qed.

Lemma obj_get_None_keys k o : obj_get k o = None <-> k ∉ o.*1.
Proof.
  induction o as [|[k1 v1] o IH]; simpl.
  - split; [intros _; apply not_elem_of_nil|done].
  - rewrite not_elem_of_cons.
    destruct (k =? k1) eqn:E.
    + apply String.eqb_eq in E. split; [done|]. intros [? _]; done.
    + apply String.eqb_neq in E. rewrite IH. tauto.
Qed.

Lemma obj_get_Some_elem k v o : obj_get k o = Some v -> (k, v) ∈ o.
Proof.
  induction o as [|[k1 v1] o IH]; simpl; [done|].
  destruct (k =? k1) eqn:E.
  - apply String.eqb_eq in E as ->. intros [= ->]. apply elem_of_cons; auto.
  - intros Hk. apply elem_of_cons; auto.
Qed.


Lemma keys_replace k v o : (obj_replace k v o).*1 = o.*1.
Proof.
  induction o as [|[k1 v1] o IH]; simpl; [done|].
  destruct (k =? k1); simpl; [done|by f_equal].
Qed.

Lemma keys_insert_index i k v o : (insert_index i k v o).*1 ≡ₚ k :: o.*1.
Proof.
  induction o as [|[k1 v1] o IH]; simpl; [done|].
  destruct (array_index k1) as [j|]; [destruct (j <? i)%N|]; simpl;
    try done.
  rewrite IH. apply Permutation_swap.
Qed.

Lemma keys_set k v o :
  (obj_set k v o).*1 ≡ₚ if obj_has k o then o.*1 else k :: o.*1.
Proof.
  unfold obj_set. destruct (obj_has k o).
  - by rewrite keys_replace.
  - destruct (array_index k).
    + apply keys_insert_index.
    + rewrite fmap_app. simpl. by rewrite Permutation_app_comm.
Qed.

Lemma distinct_keys_set k v o :
  distinct_keys o -> distinct_keys (obj_set k v o).
Proof.
  unfold distinct_keys. intros Hnd. rewrite keys_set.
  destruct (obj_has k o) eqn:E; [done|].
  apply NoDup_cons. split; [|done].
  apply obj_get_None_keys. unfold obj_has in E.
  by destruct (obj_get k o).
Qed.

Lemma distinct_keys_replace k v o :
  distinct_keys o -> distinct_keys (obj_replace k v o).
Proof. unfold distinct_keys. by rewrite keys_replace. Qed.

Lemma obj_get_rev k o : distinct_keys o -> obj_get k (rev o) = obj_get k o.
Proof.
  unfold distinct_keys.
  induction o as [|[k1 v1] o IH]; simpl; intros Hnd; [done|].
  apply NoDup_cons in Hnd as [Hk1 Hnd].
  rewrite obj_get_app, IH by done. simpl.
  destruct (k =? k1) eqn:E.
  - apply String.eqb_eq in E as ->.
    apply obj_get_None_keys in Hk1. by rewrite Hk1.
  - by destruct (obj_get k o).
Qed.

Lemma obj_get_fold_set k (arr acc : list (string * V)) :
  obj_get k (fold_left (fun a kv => obj_set kv.1 kv.2 a) arr acc) =
  match obj_get k (rev arr) with
  | Some v => Some v
  | None => obj_get k acc
  end.
Proof.
  revert acc. induction arr as [|[k1 v1] arr IH]; simpl; intros acc; [done|].
  rewrite IH, obj_get_app, obj_get_set. simpl.
  destruct (obj_get k (rev arr)); [done|].
  by destruct (k =? k1).
Qed.

Lemma distinct_keys_fold_set (arr acc : list (string * V)) :
  distinct_keys acc ->
  distinct_keys (fold_left (fun a kv => obj_set kv.1 kv.2 a) arr acc).
Proof.
  revert acc. induction arr as [|[k1 v1] arr IH]; simpl; intros acc Hacc;
    [done|].
  apply IH. by apply distinct_keys_set.
Qed.

Lemma obj_get_filter (P : string * V -> bool) k o :
  distinct_keys o ->
  obj_get k (List.filter P o) =
  match obj_get k o with
  | Some v => if P (k, v) then Some v else None
  | None => None
  end.
Proof.
  unfold distinct_keys.
  induction o as [|[k1 v1] o IH]; simpl; intros Hnd; [done|].
  apply NoDup_cons in Hnd as [Hk1 Hnd].
  destruct (k =? k1) eqn:E.
  - apply String.eqb_eq in E as ->.
    destruct (P (k1, v1)) eqn:HP; simpl.
    + by rewrite String.eqb_refl.
    + rewrite IH by done. apply obj_get_None_keys in Hk1. by rewrite Hk1.
  - destruct (P (k1, v1)); simpl; [rewrite E|]; by apply IH.
Qed.

Lemma distinct_keys_filter (P : string * V -> bool) o :
  distinct_keys o -> distinct_keys (List.filter P o).
Proof.
  unfold distinct_keys.
  induction o as [|[k1 v1] o IH]; simpl; intros Hnd; [done|].
  apply NoDup_cons in Hnd as [Hk1 Hnd].
  destruct (P (k1, v1)); simpl; [|by apply IH].
  apply NoDup_cons. split; [|by apply IH].
  intros Hin. apply Hk1.
  apply list_elem_of_fmap in Hin as [[k2 v2] [-> Hin]].
  apply list_elem_of_fmap. exists (k2, v2). split; [done|].
  apply list_elem_of_In. apply list_elem_of_In in Hin.
  by apply List.filter_In in Hin as [? _].
Qed.
End ObjectFacts.

(** ** Facts about the aggregate *)

Section StateFacts.
Variable H : host.
Implicit Types (s : store) (h : list container) (o : object).

Lemma obj_get_filtered o k :
  distinct_keys o ->
  obj_get k (fromPairs (List.filter (fun kv => negb (isFunction kv.2)) o))
  = plain_field o k.
Proof.
  intros Hd. unfold fromPairs, plain_field.
  rewrite obj_get_fold_set. simpl.
  rewrite obj_get_rev by by apply distinct_keys_filter.
  rewrite obj_get_filter by done. simpl.
  destruct (obj_get k o) as [v|]; [|done].
  by destruct (isFunction v).
Qed.

Lemma distinct_keys_fromPairs (arr : list (string * value)) :
  distinct_keys (fromPairs arr).
Proof. apply distinct_keys_fold_set. apply NoDup_nil_2. Qed.

Lemma filterFunctions_object h o :
  filterFunctions H h (VObj o)
  = Some (fromPairs (List.filter (fun kv => negb (isFunction kv.2)) o)).
Proof. done. Qed.


Lemma module_pair_name h nm y : module_pair H h nm = Some y -> y.1 = nm.1.
Proof.
  unfold module_pair. intros Hy.
  destruct (get_prop H h nm.2 "$data") as [d|]; [|done]. simpl in Hy.
  destruct (filterFunctions H h _); [|done].
  by injection Hy as <-.
Qed.

Lemma module_pair_rename h n n' m :
  snd <$> module_pair H h (n, m) = snd <$> module_pair H h (n', m).
Proof.
  unfold module_pair. simpl.
  destruct (get_prop H h m "$data") as [d|]; [|done]. simpl.
  by destruct (filterFunctions H h _).
Qed.

Lemma obj_get_module_pairs h (ms : object) (ps : list (string * value)) k :
  Forall2 (fun x y => module_pair H h x = Some y) ms ps ->
  obj_get k ps =
  match obj_get k ms with
  | Some m => snd <$> module_pair H h (k, m)
  | None => None
  end.
Proof.
  induction 1 as [|[n m] y ms ps Hy _ IH]; simpl; [done|].
  pose proof (module_pair_name _ _ _ Hy) as Hn. simpl in Hn.
  destruct y as [n' v]. simpl in Hn. subst n'.
  destruct (k =? n) eqn:E; [|done].
  apply String.eqb_eq in E as ->. by rewrite Hy.
Qed.

Lemma module_pairs_keys h (ms : object) (ps : list (string * value)) :
  Forall2 (fun x y => module_pair H h x = Some y) ms ps -> ps.*1 = ms.*1.
Proof.
  induction 1 as [|x y ms ps Hy _ IH]; simpl; [done|].
  f_equal; [by apply module_pair_name in Hy|done].
Qed.

(** Reading [state]: a module's entry hides a root field of that name;
    every other key is a root field that is not a function. *)
Lemma state_lookup s st k :
  distinct_keys (i_data (root s)) ->
  distinct_keys (modules s) ->
  state H s = Some st ->
  obj_get k st =
  match obj_get k (modules s) with
  | Some m => snd <$> module_pair H (heap s) (k, m)
  | None => plain_field (i_data (root s)) k
  end.
Proof.
  intros Hd Hm. unfold state. rewrite filterFunctions_object. simpl.
  destruct (mapM _ _) as [ps|] eqn:Hps; [|done]. simpl.
  intros [= <-]. apply mapM_Some in Hps.
  unfold obj_assign. rewrite obj_get_fold_set.
  rewrite obj_get_rev by apply distinct_keys_fromPairs.
  unfold fromPairs at 1. rewrite obj_get_fold_set. simpl.
  rewrite obj_get_rev
    by (unfold distinct_keys; by rewrite (module_pairs_keys _ _ _ Hps)).
  rewrite (obj_get_module_pairs _ _ _ k Hps).
  rewrite obj_get_filtered by done.
  destruct (obj_get k (modules s)) as [m|] eqn:Hk; [|done].
  apply obj_get_Some_elem, list_elem_of_lookup in Hk as [i Hi].
  destruct (Forall2_lookup_l _ _ _ _ _ Hps Hi) as (y & _ & Hy).
  by rewrite Hy.
Qed.
End StateFacts.

(** Closed decidable side conditions of the worked examples. *)
Ltac by_computation :=
  unfold distinct_keys; apply (bool_decide_unpack _); vm_compute; exact I.

Section AggregateTheorems.
Variable H : host.

Lemma state_returns s : readable_registry H s -> is_Some (state H s).
Proof.
  intros Hr. unfold state. rewrite filterFunctions_object. simpl.
  destruct (mapM_is_Some_2 (module_pair H (heap s)) (modules s)) as [ps ->];
    [|by eexists].
  by apply Hr.
Qed.

End AggregateTheorems.

(** ** Facts about the partition *)

Section PartitionFacts.
Variable H : host.
Variable skip : string -> bool.
Variable h : list container.
Variable obj : definition.
Variable state : value.

Lemma partition_snoc es kv :
  partition H skip h obj state (es ++ [kv])
  = a ← partition H skip h obj state es; route H skip h obj state a kv.
Proof. unfold partition. by rewrite foldl_app. Qed.

Lemma route_distinct acc kv res :
  route H skip h obj state acc kv = Some res ->
  distinct_keys acc.1 -> distinct_keys acc.2 ->
  distinct_keys res.1 /\ distinct_keys res.2.
Proof.
  unfold route. intros Hr H1 H2.
  destruct (skip kv.1); [by injection Hr as <-|].
  destruct (descriptor_get obj kv.1).
  - injection Hr as <-. split; [by apply distinct_keys_set|done].
  - destruct (get_prop H h state kv.1); [|done]. injection Hr as <-.
    split; [done|by apply distinct_keys_set].
Qed.

Lemma partition_distinct es res :
  partition H skip h obj state es = Some res ->
  distinct_keys res.1 /\ distinct_keys res.2.
Proof.
  revert res. induction es as [|kv es IH] using rev_ind; intros res.
  - intros [= <-]. split; apply NoDup_nil_2.
  - rewrite partition_snoc.
    destruct (partition H skip h obj state es) as [a|]; [|done]. simpl.
    intros Hr. destruct (IH a eq_refl).
    by eapply route_distinct.
Qed.

(** Where a key of the entries ends up. *)
Lemma partition_lookup es res k :
  partition H skip h obj state es = Some res ->
  obj_get k res.1 =
    match obj_get k (rev es) with
    | Some _ => if skip k then None else descriptor_get obj k
    | None => None
    end
  /\ obj_get k res.2 =
    match obj_get k (rev es) with
    | Some value =>
        if skip k then None
        else
          match descriptor_get obj k with
          | Some _ => None
          | None =>
              (fun sv => if truthy sv then sv else value)
                <$> get_prop H h state k
          end
    | None => None
    end.
Proof.
  revert res. induction es as [|[k1 v1] es IH] using rev_ind; intros res.
  - by intros [= <-].
  - rewrite partition_snoc, rev_app_distr. simpl.
    destruct (partition H skip h obj state es) as [a|]; [|done]. simpl.
    destruct (IH a eq_refl) as [IH1 IH2]. clear IH.
    unfold route. simpl. intros Hr.
    destruct (k =? k1) eqn:E.
    + apply String.eqb_eq in E as ->.
      destruct (skip k1) eqn:Hs.
      * injection Hr as <-. rewrite IH1, IH2.
        by destruct (obj_get k1 (rev es)).
      * destruct (descriptor_get obj k1) as [g|] eqn:Hg.
        -- injection Hr as <-. simpl. rewrite obj_get_set_eq, IH2.
           by destruct (obj_get k1 (rev es)).
        -- destruct (get_prop H h state k1) as [sv|]; [|done].
           injection Hr as <-. simpl. rewrite obj_get_set_eq, IH1.
           by destruct (obj_get k1 (rev es)).
    + assert (k <> k1) as Hne by by apply String.eqb_neq.
      destruct (skip k1).
      * by injection Hr as <-.
      * destruct (descriptor_get obj k1).
        -- injection Hr as <-. simpl. by rewrite obj_get_set_ne.
        -- destruct (get_prop H h state k1); [|done].
           injection Hr as <-. simpl. by rewrite obj_get_set_ne.
Qed.


Lemma def_entries_keys : (def_entries H obj).*1 = obj.*1.
Proof.
  unfold def_entries. rewrite <- list_fmap_compose.
  by apply list_fmap_ext.
Qed.

Lemma obj_get_def_entries k :
  obj_get k (def_entries H obj) = prop_value H obj <$> obj_get k obj.
Proof.
  unfold def_entries. generalize (prop_value H obj) as f. intros f.
  induction obj as [|[k1 p1] o' IH]; simpl; [done|].
  destruct (k =? k1); [done|apply IH].
Qed.

Lemma entry_value k :
  distinct_keys obj ->
  obj_get k (rev (def_entries H obj)) = prop_value H obj <$> obj_get k obj.
Proof.
  intros Hd. rewrite obj_get_rev; [apply obj_get_def_entries|].
  unfold distinct_keys. by rewrite def_entries_keys.
Qed.
End PartitionFacts.

Lemma foldl_ext_in {A B} (f g : A -> B -> A) (l : list B) (a : A) :
  (forall a x, x ∈ l -> f a x = g a x) -> foldl f a l = foldl g a l.
Proof.
  revert a. induction l as [|x l IH]; simpl; intros a Hfg; [done|].
  rewrite Hfg by apply list_elem_of_here.
  apply IH. intros a' y Hy. apply Hfg. by apply list_elem_of_further.
Qed.

(** ** The two variants of [separate] as instances of the loop *)

Section SeparateFacts.
Variable H : host.
Implicit Types (h : list container) (obj : definition) (state : value).

Lemma Index_separate_entry_route h obj state a kv :
  Index.separate_entry H h obj state a kv
  = route H skip_watch h obj state a kv.
Proof.
  destruct kv as [key value]. unfold Index.separate_entry, route, skip_watch.
  simpl. destruct (key =? "watch"); [done|].
  destruct (descriptor_get obj key); [done|].
  destruct (get_prop H h state key) as [sv|]; [|done]. simpl.
  by destruct (truthy sv).
Qed.

Lemma Part000_separate_entry_route h obj state a kv :
  Part000.separate_entry H h obj state a kv
  = route H skip_nothing h obj state a kv.
Proof.
  destruct kv as [key value].
  unfold Part000.separate_entry, route, skip_nothing. simpl.
  destruct (descriptor_get obj key); [done|].
  destruct (get_prop H h state key) as [sv|]; [|done]. simpl.
  by destruct (truthy sv).
Qed.

Lemma Index_separate_partition h obj state :
  Index.separate H h obj state
  = (fun acc => Index.Separated acc.1 acc.2 (def_get H obj "watch"))
      <$> partition H skip_watch h obj (default_object state)
            (def_entries H obj).
Proof.
  unfold Index.separate, partition.
  erewrite foldl_ext_in; [reflexivity|].
  intros [a|] kv _; simpl; [apply Index_separate_entry_route|done].
Qed.

Lemma Part000_separate_partition h obj state :
  Part000.separate H h obj state
  = (fun acc => Part000.Separated acc.1 acc.2)
      <$> partition H skip_nothing h obj (default_object state)
            (def_entries H obj).
Proof.
  unfold Part000.separate, partition.
  erewrite foldl_ext_in; [reflexivity|].
  intros [a|] kv _; simpl; [apply Part000_separate_entry_route|done].
Qed.

Lemma partition_skip_ext (skip1 skip2 : string -> bool) h obj state es :
  (forall kv, kv ∈ es -> skip1 kv.1 = skip2 kv.1) ->
  partition H skip1 h obj state es = partition H skip2 h obj state es.
Proof.
  intros Hs. unfold partition. apply foldl_ext_in.
  intros [a|] kv Hkv; simpl; [|done].
  unfold route. by rewrite (Hs kv Hkv).
Qed.

Lemma descriptor_get_prop obj key p :
  obj_get key obj = Some p -> descriptor_get obj key = getter_of p.
Proof. unfold descriptor_get. intros ->. by destruct p. Qed.

(** Where a key of the definition ends up, for either variant. *)
Lemma partition_key skip h obj state res key p :
  distinct_keys obj ->
  partition H skip h obj state (def_entries H obj) = Some res ->
  obj_get key obj = Some p ->
  skip key = false ->
  obj_get key res.1 = getter_of p
  /\ obj_get key res.2 =
     match getter_of p with
     | Some _ => None
     | None =>
         (fun sv => if truthy sv then sv else prop_value H obj p)
           <$> get_prop H h state key
     end.
Proof.
  intros Hd Hres Hp Hs.
  destruct (partition_lookup H skip h obj state _ res key Hres) as [H1 H2].
  rewrite entry_value, Hp in H1, H2 by done. simpl in H1, H2.
  rewrite Hs, (descriptor_get_prop _ _ _ Hp) in H1, H2.
  done.
Qed.


Lemma readable_object h o : readable H h (VObj o).
Proof. intros k. by eexists. Qed.

Lemma readable_default h state :
  state <> VNull -> (forall l, state <> VRef l) ->
  readable H h (default_object state).
Proof.
  intros Hn Hr k. destruct state; simpl; try (eexists; reflexivity).
  - by destruct Hn.
  - by destruct (Hr l).
Qed.
End SeparateFacts.

(** ** The partition: what each key becomes *)

Section SeparateTheorems.
Variable H : host.

Lemma partition_routed skip h obj state res key p :
  distinct_keys obj ->
  partition H skip h obj state (def_entries H obj) = Some res ->
  obj_get key obj = Some p ->
  skip key = false ->
  routed H h obj state key p res.1 res.2.
Proof.
  intros Hd Hres Hp Hs.
  destruct (partition_key H skip h obj state res key p Hd Hres Hp Hs)
    as [H1 H2].
  unfold routed. destruct (getter_of p) as [g|] eqn:Hg; [done|].
  split; [done|].
  destruct (get_prop H h state key) as [sv|] eqn:Hsv; [by exists sv|].
  exfalso.
  (* the loop read [state[key]] when it met [key] *)
  assert (Hin : key ∈ (def_entries H obj).*1).
  { rewrite def_entries_keys. apply list_elem_of_fmap.
    exists (key, p). split; [done|by apply obj_get_Some_elem]. }
  clear H1 H2. revert res Hres Hin.
  generalize (def_entries H obj) as es.
  induction es as [|[k1 v1] es IH] using rev_ind; intros res Hres Hin.
  - by apply elem_of_nil in Hin.
  - rewrite partition_snoc in Hres.
    destruct (partition H skip h obj state es) as [a|] eqn:Ha; [|done].
    simpl in Hres. rewrite fmap_app in Hin. simpl in Hin.
    apply elem_of_app in Hin as [Hin|Hin]; [by eapply IH|].
    apply list_elem_of_singleton in Hin as <-.
    unfold route in Hres. simpl in Hres.
    rewrite Hs, (descriptor_get_prop _ _ _ Hp), Hg, Hsv in Hres. done.
Qed.



Lemma Index_separate_routed h obj state sep key p :
  distinct_keys obj ->
  Index.separate H h obj state = Some sep ->
  obj_get key obj = Some p ->
  key <> "watch" ->
  routed H h obj (default_object state) key p
         (Index.computed sep) (Index.data sep).
Proof.
  intros Hd Hsep Hp Hk. rewrite Index_separate_partition in Hsep.
  destruct (partition _ _ _ _ _ _) as [res|] eqn:Hres; [|done].
  injection Hsep as <-. simpl.
  eapply partition_routed; [done..|].
  unfold skip_watch. by apply String.eqb_neq.
Qed.

Lemma Part000_separate_routed h obj state sep key p :
  distinct_keys obj ->
  Part000.separate H h obj state = Some sep ->
  obj_get key obj = Some p ->
  routed H h obj (default_object state) key p
         (Part000.computed sep) (Part000.data sep).
Proof.
  intros Hd Hsep Hp. rewrite Part000_separate_partition in Hsep.
  destruct (partition _ _ _ _ _ _) as [res|] eqn:Hres; [|done].
  injection Hsep as <-. simpl.
  by eapply partition_routed.
Qed.


Lemma Index_separate_distinct h obj state sep :
  Index.separate H h obj state = Some sep ->
  distinct_keys (Index.computed sep) /\ distinct_keys (Index.data sep).
Proof.
  intros Hsep. rewrite Index_separate_partition in Hsep.
  destruct (partition _ _ _ _ _ _) as [res|] eqn:Hres; [|done].
  injection Hsep as <-. simpl. by eapply partition_distinct.
Qed.

Lemma Part000_separate_distinct h obj state sep :
  Part000.separate H h obj state = Some sep ->
  distinct_keys (Part000.computed sep) /\ distinct_keys (Part000.data sep).
Proof.
  intros Hsep. rewrite Part000_separate_partition in Hsep.
  destruct (partition _ _ _ _ _ _) as [res|] eqn:Hres; [|done].
  injection Hsep as <-. simpl. by eapply partition_distinct.
Qed.
End SeparateTheorems.

(** A store as the constructor leaves it is well formed. *)
Lemma Index_StoreFactory_well_formed (H : host) base state s :
  Index.StoreFactory H base state = Some s ->
  distinct_keys (i_data (root s)) /\ distinct_keys (modules s)
  /\ plain_registry s /\ heap s = [].
Proof.
  unfold Index.StoreFactory.
  destruct (Index.separate H [] base (default_object state)) as [sep|] eqn:E;
    [|done].
  intros [= <-]. simpl.
  destruct (Index_separate_distinct H _ _ _ _ E) as [_ Hd].
  repeat split; [done|apply NoDup_nil_2|apply Forall_nil_2].
Qed.

Lemma Part000_StoreFactory_well_formed (H : host) base state context s :
  Part000.StoreFactory H base state context = Some s ->
  distinct_keys (i_data (root s)) /\ distinct_keys (modules s)
  /\ plain_registry s /\ heap s = [].
Proof.
  unfold Part000.StoreFactory.
  destruct (Part000.separate H [] base (default_object state)) as [sep|] eqn:E;
    [|done].
  intros [= <-]. simpl.
  destruct (Part000_separate_distinct H _ _ _ _ E) as [_ Hd].
  repeat split; [done|apply NoDup_nil_2|apply Forall_nil_2].
Qed.

(** ** Facts about the root's properties and [add] *)

Arguments vm_get : simpl never.
Arguments vm_set : simpl never.
Arguments state : simpl never.

Ltac run :=
  repeat progress
    (unfold assign_new, register, bind, lift, update, modify, ret, throw,
       alloc in *; simpl in * ).

Section AddFacts.
Variable H : host.
Implicit Types (s : store) (name : string) (v : value).

Lemma proxied_has (d : object) name :
  obj_has name d && negb (is_reserved name) = false -> proxied d name = None.
Proof.
  unfold proxied, obj_has. destruct (is_reserved name); [done|].
  by destruct (obj_get name d).
Qed.

Lemma proxied_replace (d : object) name v :
  obj_has name d && negb (is_reserved name) = true ->
  proxied (obj_replace name v d) name = Some v.
Proof.
  unfold proxied. intros [Hh Hr]%andb_prop.
  destruct (is_reserved name); [done|].
  by rewrite obj_get_replace, String.eqb_refl, Hh.
Qed.

(** A name that is assignable is read without running any getter: its
    value depends on the root's data and own properties only. *)
Lemma vm_get_plain s s' name :
  assignable H s name = true ->
  root s' = root s -> own s' = own s ->
  vm_get H s' name = vm_get H s name.
Proof.
  unfold assignable, vm_get. intros Ha -> ->.
  destruct (name =? "$data"); [done|]. simpl in Ha.
  destruct (proxied (i_data (root s)) name) eqn:Hp; [done|].
  destruct (obj_get name (own s)) eqn:Ho; [done|].
  destruct (name =? "add"); [done|].
  destruct (host_member H name); [done|].
  unfold proxied, obj_has in *. rewrite Ho in Ha.
  destruct (obj_get name (i_computed (root s))); [exfalso|done].
  destruct (obj_get name (i_data (root s))), (is_reserved name);
    simpl in *; done.
Qed.

Lemma vm_set_frame name v s s' :
  vm_set H name v s = Some s' ->
  modules s' = modules s /\ heap s' = heap s /\ console s' = console s
  /\ overrides s' = overrides s /\ context s' = context s
  /\ i_computed (root s') = i_computed (root s)
  /\ (i_data (root s')).*1 = (i_data (root s)).*1.
Proof.
  unfold vm_set. intros Hs.
  repeat match type of Hs with
         | (if ?b then _ else _) = _ => destruct b
         | match ?x with _ => _ end = _ => destruct x
         end;
    try done; injection Hs as <-; simpl; repeat split; try done.
  by rewrite keys_replace.
Qed.

Lemma vm_get_own s name v :
  (name =? "$data") = false ->
  proxied (i_data (root s)) name = None ->
  obj_get name (own s) = Some v ->
  vm_get H s name = Some v /\ assignable H s name = true.
Proof.
  intros Hd Hp Ho. unfold vm_get, assignable, obj_has.
  rewrite Hd, Hp, Ho. simpl. split; [done|].
  by rewrite orb_true_r.
Qed.

Lemma vm_get_proxied s name v :
  proxied (i_data (root s)) name = Some v ->
  vm_get H s name = Some v /\ assignable H s name = true.
Proof.
  intros Hp. unfold vm_get, assignable, obj_has. rewrite Hp.
  unfold proxied in Hp.
  destruct (is_reserved name) eqn:Hr; [done|]. rewrite Hp.
  assert ((name =? "$data") = false) as ->; [|done].
  apply String.eqb_neq. by intros ->.
Qed.

Lemma vm_set_assignable name v s :
  assignable H s name = true ->
  exists s',
    vm_set H name v s = Some s'
    /\ vm_get H s' name = Some v
    /\ assignable H s' name = true.
Proof.
  intros Ha. unfold assignable in Ha. unfold vm_set.
  destruct (name =? "$data") eqn:Hd; [done|]. simpl in Ha.
  destruct (obj_has name (i_data (root s)) && negb (is_reserved name))
    eqn:Hp; simpl in Ha.
  - eexists. split; [done|]. apply vm_get_proxied. simpl.
    by apply proxied_replace.
  - apply proxied_has in Hp.
    assert (Hset : forall s0, root s0 = root s ->
              own s0 = obj_set name v (own s) ->
              vm_get H s0 name = Some v /\ assignable H s0 name = true).
    { intros s0 Hr Ho. apply vm_get_own; [done|by rewrite Hr|].
      by rewrite Ho, obj_get_set_eq. }
    destruct (obj_has name (own s) || (name =? "add")) eqn:Ho;
      simpl in Ha.
    + eexists. split; [done|]. by apply Hset.
    + destruct (host_member H name) as [hs|] eqn:Hh.
      * destruct (hs_assign hs); try done.
        eexists. split; [done|]. by apply Hset.
      * destruct (obj_has name (i_computed (root s))); [done|].
        eexists. split; [done|]. by apply Hset.
Qed.

(** The refusal: a truthy [this[name]] ends [add] with a warning and
    nothing else. *)
Lemma Index_add_single_refuses name module s cur :
  vm_get H s name = Some cur -> truthy cur = true ->
  Index.add_single H name module s
  = (Returned tt, warn (already_added name) s).
Proof. intros Hg Ht. unfold Index.add_single. run. by rewrite Hg, Ht. Qed.

Lemma Part000_add_single_refuses name module s cur :
  vm_get H s name = Some cur -> truthy cur = true ->
  Part000.add_single H name module s
  = (Returned tt, warn (already_added name) s).
Proof. intros Hg Ht. unfold Part000.add_single. run. by rewrite Hg, Ht. Qed.
End AddFacts.

Section AttachFacts.
Variable H : host.
Implicit Types (s : store) (name : string) (v : value).

Lemma Index_attach_built name module s :
  Index.attach H name module s
  = attach_built H (Index_build H module) name s.
Proof.
  unfold Index.attach, attach_built, Index_build, Index_container, bind, lift.
  destruct (call_module H module [] s) as [obj|]; [|done]. simpl.
  destruct (get_prop H (heap s) (overrides s) name) as [sub|]; [|done]. simpl.
  destruct (Index.separate H (heap s) obj sub) as [sep|]; [|done]. simpl.
  by destruct (obj_nonempty (Index.computed sep)).
Qed.

Lemma Part000_attach_built name module s :
  Part000.attach H name module s
  = attach_built H (Part000_build H module) name s.
Proof.
  unfold Part000.attach, attach_built, Part000_build, Part000_container,
    bind, lift.
  destruct (call_module H module [context s] s) as [obj|]; [|done]. simpl.
  destruct (get_prop H (heap s) (overrides s) name) as [sub|]; [|done]. simpl.
  destruct (Part000.separate H (heap s) obj sub) as [sep|]; [|done]. simpl.
  by destruct (Part000.wants_instance sep).
Qed.

Lemma Index_add_single_built name module s :
  Index.add_single H name module s
  = add_built H (Index_build H module) name s.
Proof.
  unfold Index.add_single, add_built, bind, lift.
  destruct (vm_get H s name) as [cur|]; [|done].
  destruct (truthy cur); [done|apply Index_attach_built].
Qed.

Lemma Part000_add_single_built name module s :
  Part000.add_single H name module s
  = add_built H (Part000_build H module) name s.
Proof.
  unfold Part000.add_single, add_built, bind, lift.
  destruct (vm_get H s name) as [cur|]; [|done].
  destruct (truthy cur); [done|apply Part000_attach_built].
Qed.

Lemma same_except_refl name s : same_except name s s.
Proof. by repeat split. Qed.

Lemma vm_set_same_except name v s s' :
  vm_set H name v s = Some s' -> same_except name s s'.
Proof.
  intros Hs. pose proof (vm_set_frame H _ _ _ _ Hs) as (_&_&_&?&?&?&?).
  repeat (split; [done|]).
  intros k Hk. apply String.eqb_neq in Hk. unfold vm_set in Hs.
  repeat match type of Hs with
         | (if ?b then _ else _) = _ => destruct b
         | match ?x with _ => _ end = _ => destruct x
         end;
    try done; injection Hs as <-; simpl;
    rewrite ?obj_get_replace, ?obj_get_set, ?Hk; done.
Qed.

(** A name that is assignable reads the same in two stores that agree on
    what the root holds under it. *)
Lemma vm_get_stable s s' k :
  assignable H s k = true ->
  i_computed (root s') = i_computed (root s) ->
  obj_get k (i_data (root s')) = obj_get k (i_data (root s)) ->
  obj_get k (own s') = obj_get k (own s) ->
  vm_get H s' k = vm_get H s k /\ assignable H s' k = true.
Proof.
  unfold assignable, vm_get, proxied, obj_has. intros Ha Hc Hd Ho.
  rewrite Hc, Hd, Ho. split; [|done].
  destruct (k =? "$data"); [done|]. simpl in Ha.
  destruct (is_reserved k) eqn:Hr;
    destruct (obj_get k (i_data (root s))) eqn:Hp; try done;
    destruct (obj_get k (own s)) eqn:Hw; try done;
    destruct (k =? "add"); try done;
    destruct (host_member H k); try done;
    simpl in Ha;
    by destruct (obj_get k (i_computed (root s))).
Qed.

(** The two assignments that end a successful [add]. *)
Lemma assign_and_register name c s :
  assignable H s name = true ->
  exists s',
    bind (assign_new H name c) (fun _ => register H name) s
    = (Returned tt, s')
    /\ heap s' = (heap s ++ [c])%list
    /\ modules s' = obj_set name (VRef (length (heap s))) (modules s)
    /\ vm_get H s' name = Some (VRef (length (heap s)))
    /\ assignable H s' name = true
    /\ console s' = console s
    /\ same_except name s s'.
Proof.
  intros Ha.
  destruct (vm_set_assignable H name (VRef (length (heap s)))
              (set_heap (heap s ++ [c]) s) Ha) as (s2 & Hset & Hget & Ha2).
  pose proof (vm_set_frame H _ _ _ _ Hset) as (Hm & Hh & Hc & _).
  pose proof (vm_set_same_except _ _ _ _ Hset) as Hse.
  exists (set_modules (obj_set name (VRef (length (heap s))) (modules s2)) s2).
  run. rewrite Hset. simpl. rewrite Hget. simpl.
  split; [done|]. split; [done|]. split; [by rewrite Hm|].
  split; [by rewrite (vm_get_plain H s2) by done|].
  done.
Qed.

Lemma assign_and_register_outcome name c r s s' :
  bind (assign_new H name c) (fun _ => register H name) s = (r, s') ->
  same_except name s s'
  /\ (r = Thrown -> modules s' = modules s /\ console s' = console s).
Proof.
  run. destruct (vm_set H name _ _) as [s2|] eqn:Hset; simpl.
  - pose proof (vm_set_frame H _ _ _ _ Hset) as (Hm & Hh & Hc & _).
    pose proof (vm_set_same_except _ _ _ _ Hset) as Hse.
    destruct (vm_get H s2 name); simpl; intros [= <- <-]; by split.
  - intros [= <- <-]. by repeat split.
Qed.
End AttachFacts.

Section RegistryFacts.
Variable H : host.
Implicit Types (s : store) (name : string) (v : value).

Lemma elem_of_obj_set {V} (k : string) (v : V) (o : list (string * V)) x :
  x ∈ obj_set k v o -> x = (k, v) \/ x ∈ o.
Proof.
  unfold obj_set. destruct (obj_has k o).
  - induction o as [|[k1 v1] o IH]; simpl; [by right|].
    destruct (k =? k1) eqn:E.
    + apply String.eqb_eq in E as ->.
      intros [-> | Hx]%elem_of_cons; [by left|].
      right. by apply list_elem_of_further.
    + intros [-> | Hx]%elem_of_cons; [right; apply list_elem_of_here|].
      destruct (IH Hx); [by left|right; by apply list_elem_of_further].
  - destruct (array_index k) as [i|].
    + induction o as [|[k1 v1] o IH]; simpl.
      * intros ->%list_elem_of_singleton. by left.
      * destruct (array_index k1) as [j|]; [destruct (j <? i)%N|].
        -- intros [-> | Hx]%elem_of_cons; [right; apply list_elem_of_here|].
           destruct (IH Hx); [by left|right; by apply list_elem_of_further].
        -- intros [-> | Hx]%elem_of_cons; [by left|by right].
        -- intros [-> | Hx]%elem_of_cons; [by left|by right].
    + intros [Hx | ->%list_elem_of_singleton]%elem_of_app;
        [by right|by left].
Qed.





End RegistryFacts.

Section AddBuiltFacts.
Variable H : host.
Variable build : string -> store -> option container.
Implicit Types (s : store) (name : string) (v : value).

Lemma add_built_refuses name s cur :
  vm_get H s name = Some cur -> truthy cur = true ->
  add_built H build name s = (Returned tt, warn (already_added name) s).
Proof. intros Hg Ht. unfold add_built. run. by rewrite Hg, Ht. Qed.


Lemma add_built_outcome name r s s' :
  add_built H build name s = (r, s') ->
  same_except name s s'
  /\ (r = Thrown -> modules s' = modules s /\ console s' = console s).
Proof.
  unfold add_built, attach_built, bind at 1, lift at 1.
  destruct (vm_get H s name) as [cur|].
  - destruct (truthy cur).
    + intros [= <- <-]. by repeat split.
    + unfold bind at 1, lift at 1. destruct (build name s) as [c|].
      * apply assign_and_register_outcome.
      * intros [= <- <-]. by repeat split.
  - intros [= <- <-]. by repeat split.
Qed.

(** After an [add] that returned, the root holds something truthy under
    the name, whether the call attached a module or refused. *)
Lemma add_built_then_truthy name s s1 :
  assignable H s name = true ->
  add_built H build name s = (Returned tt, s1) ->
  exists v, vm_get H s1 name = Some v /\ truthy v = true.
Proof.
  intros Ha. unfold add_built, attach_built, bind at 1, lift at 1.
  destruct (vm_get H s name) as [cur|] eqn:Hg; [|done].
  destruct (truthy cur) eqn:Ht.
  - intros [= <-]. exists cur. split; [|done].
    by rewrite (vm_get_plain H s).
  - unfold bind at 1, lift at 1. destruct (build name s) as [c|]; [|done].
    destruct (assign_and_register H name c s Ha) as (s' & -> & _ & _ & Hv & _).
    intros [= <-]. by eexists.
Qed.

Lemma assignable_add s : assignable H s "add" = true.
Proof. unfold assignable. simpl. by rewrite !orb_true_r. Qed.

Lemma add_built_keeps_add name s s' :
  vm_get H s "add" = Some (VFun BoundAdd) ->
  add_built H build name s = (Returned tt, s') ->
  vm_get H s' "add" = Some (VFun BoundAdd).
Proof.
  intros Hadd Hrun. destruct (decide (name = "add")) as [->|Hne].
  - rewrite (add_built_refuses _ _ _ Hadd eq_refl) in Hrun.
    injection Hrun as <-. rewrite (vm_get_plain H s); [done| |done..].
    apply assignable_add.
  - destruct (add_built_outcome _ _ _ _ Hrun) as [(Hc & _ & _ & _ & Hk) _].
    destruct (Hk "add") as [Hd Ho]; [done|].
    destruct (vm_get_stable H s s' "add" (assignable_add s) Hc Hd Ho)
      as [-> _]. done.
Qed.

End AddBuiltFacts.

Lemma forEach_app {A} (f : A -> action unit) (l1 l2 : list A) s :
  forEach f (l1 ++ l2) s = bind (forEach f l1) (fun _ => forEach f l2) s.
Proof.
  revert s. induction l1 as [|x l1 IH]; intros s; simpl; [done|].
  unfold bind in *. destruct (f x s) as [[[]|] s1]; [|done].
  apply IH.
Qed.

Lemma bind_ext {A B} (m m' : action A) (k k' : A -> action B) s :
  m s = m' s ->
  (forall a s', m' s = (Returned a, s') -> k a s' = k' a s') ->
  bind m k s = bind m' k' s.
Proof.
  unfold bind. intros -> Hk.
  destruct (m' s) as [[a|] s']; [by apply Hk|done].
Qed.

(** The bulk form, when [store.add] is the method: the single form once
    per entry, in entry order. *)
Lemma forEach_add_built (H : host)
    (bld : value -> string -> store -> option container) (ms : object) s :
  vm_get H s "add" = Some (VFun BoundAdd) ->
  forEach (fun nm : string * value =>
             bind (lift (fun s => vm_get H s "add"))
                  (fun f => match f with
                            | VFun BoundAdd => add_built H (bld nm.2) nm.1
                            | _ => throw
                            end)) ms s
  = forEach (fun nm : string * value => add_built H (bld nm.2) nm.1) ms s.
Proof.
  revert s. induction ms as [|nm ms IH]; intros s Hadd; simpl; [done|].
  apply bind_ext.
  - unfold bind, lift. by rewrite Hadd.
  - intros [] s1 Hrun. apply IH. by eapply add_built_keeps_add.
Qed.

Lemma forEach_ext {A} (f g : A -> action unit) (l : list A) s :
  (forall x s, f x s = g x s) -> forEach f l s = forEach g l s.
Proof.
  intros Hfg. revert s. induction l as [|x l IH]; intros s; simpl; [done|].
  apply bind_ext; [apply Hfg|]. intros _ s' _. apply IH.
Qed.

Lemma Index_add_modules (H : host) (ms : object) module s :
  vm_get H s "add" = Some (VFun BoundAdd) ->
  Index.add H (Modules ms) module s
  = forEach (fun nm => Index.add H (Name nm.1) nm.2) ms s.
Proof.
  intros Hadd. simpl.
  rewrite (forEach_ext _
    (fun nm : string * value =>
       bind (lift (fun s => vm_get H s "add"))
            (fun f => match f with
                      | VFun BoundAdd => add_built H (Index_build H nm.2) nm.1
                      | _ => throw
                      end))).
  - rewrite (forEach_add_built H (Index_build H)) by done.
    apply forEach_ext. intros nm s'. symmetry. apply Index_add_single_built.
  - intros nm s'. unfold Index.this_add. apply bind_ext; [done|].
    intros f s1 _. destruct f as [| | | | | |[]| |]; try done.
    apply Index_add_single_built.
Qed.

Lemma Part000_add_modules (H : host) (ms : object) module s :
  vm_get H s "add" = Some (VFun BoundAdd) ->
  Part000.add H (Modules ms) module s
  = forEach (fun nm => Part000.add H (Name nm.1) nm.2) ms s.
Proof.
  intros Hadd. simpl.
  rewrite (forEach_ext _
    (fun nm : string * value =>
       bind (lift (fun s => vm_get H s "add"))
            (fun f => match f with
                      | VFun BoundAdd =>
                          add_built H (Part000_build H nm.2) nm.1
                      | _ => throw
                      end))).
  - rewrite (forEach_add_built H (Part000_build H)) by done.
    apply forEach_ext. intros nm s'. symmetry.
    apply Part000_add_single_built.
  - intros nm s'. unfold Part000.this_add. apply bind_ext; [done|].
    intros f s1 _. destruct f as [| | | | | |[]| |]; try done.
    apply Part000_add_single_built.
Qed.

Lemma forEach_stops {A} (f : A -> action unit) before x after s s1 s2 :
  forEach f before s = (Returned tt, s1) ->
  f x s1 = (Thrown, s2) ->
  forEach f (before ++ x :: after) s = (Thrown, s2).
Proof.
  intros Hb Hx. rewrite forEach_app. unfold bind. rewrite Hb. simpl.
  unfold bind. by rewrite Hx.
Qed.

(** ** Attaching a module: the container and its fields *)

Section ModuleFields.
Variable H : host.
Implicit Types (s : store) (name : string) (v : value) (c : container).





End ModuleFields.

(** * The claims *)

(** ** The worked example is what the code computes *)

Lemma example_root_built :
  Index.StoreFactory example_host example_base VUndef = Some example_root.
Proof. reflexivity. Qed.

Lemma example_root_built_part_000 :
  Part000.StoreFactory example_host example_base VUndef VUndef
  = Some example_root.
Proof. reflexivity. Qed.

Lemma example_store_built :
  Index.add example_host (Name "m") (VFun (UserFn 0)) example_root
  = (Returned tt, example_store).
Proof. reflexivity. Qed.

Lemma example_shadowed_built :
  exists r,
    Index.StoreFactory example_host
      [("m", Stored (VNum 0)); ("x", Stored (VNum 1))] VUndef = Some r
    /\ Index.add example_host (Name "m") (VFun (UserFn 0)) r
       = (Returned tt, example_shadowed).
Proof. eexists. split; reflexivity. Qed.

(** ** The aggregate [state] *)


(** An observable module with a truthy field [$data] is the one case in
    which [state] does not list the module's own fields: the test
    [module.$data || module] takes the field for the data of an instance.
    Here the module [{ $data: 5 }] shows as [{}]. *)
Lemma state_of_module_with_dollar_data :
  exists s,
    Index.add example_host (Name "m") (VFun (UserFn 2)) example_root
    = (Returned tt, s)
    /\ heap s = [CObs [("$data", VNum 5)]]
    /\ state example_host s = Some [("x", VNum 1); ("m", VObj [])].
Proof. eexists. repeat split; reflexivity. Qed.








(** C4. When [add] has returned for a name, a second call with that name
    attaches nothing: it returns after one warning, and the registry, the
    containers and the root are as the first call left them.  The name is
    one under which the root can hold a module: not a derived field and
    not an accessor of the host. *)
Theorem C4_second_add_is_refused (H : host) s name module module' :
  assignable H s name = true ->
  (forall s1,
      Index.add H (Name name) module s = (Returned tt, s1) ->
      exists s2,
        Index.add H (Name name) module' s1 = (Returned tt, s2)
        /\ modules s2 = modules s1 /\ heap s2 = heap s1
        /\ root s2 = root s1 /\ own s2 = own s1
        /\ console s2 = (console s1 ++ [already_added name])%list)
  /\ (forall s1,
      Part000.add H (Name name) module s = (Returned tt, s1) ->
      exists s2,
        Part000.add H (Name name) module' s1 = (Returned tt, s2)
        /\ modules s2 = modules s1 /\ heap s2 = heap s1
        /\ root s2 = root s1 /\ own s2 = own s1
        /\ console s2 = (console s1 ++ [already_added name])%list).
Proof.
  intros Ha. split; intros s1 Hrun; simpl in Hrun.
  - rewrite Index_add_single_built in Hrun.
    destruct (add_built_then_truthy H _ _ _ _ Ha Hrun) as (v & Hv & Ht).
    exists (warn (already_added name) s1). split; [|done].
    by apply (Index_add_single_refuses H name module' s1 v).
  - rewrite Part000_add_single_built in Hrun.
    destruct (add_built_then_truthy H _ _ _ _ Ha Hrun) as (v & Hv & Ht).
    exists (warn (already_added name) s1). split; [|done].
    by apply (Part000_add_single_refuses H name module' s1 v).
Qed.

Lemma C4_second_add_is_refused_witness :
  exists s2,
    Index.add example_host (Name "m") (VFun (UserFn 1)) example_store
    = (Returned tt, s2)
    /\ modules s2 = modules example_store /\ heap s2 = heap example_store
    /\ root s2 = root example_store /\ own s2 = own example_store
    /\ console s2
       = (console example_store ++ [already_added "m"])%list.
Proof.
  apply (proj1 (C4_second_add_is_refused example_host example_root "m"
                  (VFun (UserFn 0)) (VFun (UserFn 1)) eq_refl)).
  reflexivity.
Defined.






(** C7. Called with a mapping from names to factories, [add] does what
    the single-name form does when called once per entry, in entry order.
    It returns nothing, and nothing is rolled back: when the call for an
    entry throws, the bulk call throws there, and the registry is as the
    entries before it left it. *)
Theorem C7_bulk_add_is_sequence (H : host) (ms : object) module s :
  vm_get H s "add" = Some (VFun BoundAdd) ->
  (Index.add H (Modules ms) module s
   = forEach (fun nm => Index.add H (Name nm.1) nm.2) ms s
   /\ forall before nm after s1 s2,
        ms = (before ++ nm :: after)%list ->
        forEach (fun nm => Index.add H (Name nm.1) nm.2) before s
        = (Returned tt, s1) ->
        Index.add H (Name nm.1) nm.2 s1 = (Thrown, s2) ->
        Index.add H (Modules ms) module s = (Thrown, s2)
        /\ modules s2 = modules s1)
  /\ (Part000.add H (Modules ms) module s
      = forEach (fun nm => Part000.add H (Name nm.1) nm.2) ms s
      /\ forall before nm after s1 s2,
           ms = (before ++ nm :: after)%list ->
           forEach (fun nm => Part000.add H (Name nm.1) nm.2) before s
           = (Returned tt, s1) ->
           Part000.add H (Name nm.1) nm.2 s1 = (Thrown, s2) ->
           Part000.add H (Modules ms) module s = (Thrown, s2)
           /\ modules s2 = modules s1).
Proof.
  intros Hadd. split; (split; [by (apply Index_add_modules
                                   || apply Part000_add_modules)|]).
  - intros before nm after s1 s2 -> Hb Hx.
    rewrite Index_add_modules by done. split.
    + by apply (forEach_stops _ before nm after s s1 s2).
    + simpl in Hx. rewrite Index_add_single_built in Hx.
      by destruct (add_built_outcome _ _ _ _ _ _ Hx) as [_ [? _]].
  - intros before nm after s1 s2 -> Hb Hx.
    rewrite Part000_add_modules by done. split.
    + by apply (forEach_stops _ before nm after s s1 s2).
    + simpl in Hx. rewrite Part000_add_single_built in Hx.
      by destruct (add_built_outcome _ _ _ _ _ _ Hx) as [_ [? _]].
Qed.

Lemma C7_bulk_add_is_sequence_witness :
  (Index.add example_host (Modules example_modules) VUndef example_root
   = forEach (fun nm => Index.add example_host (Name nm.1) nm.2)
       example_modules example_root
   /\ forall before nm after s1 s2,
        example_modules = (before ++ nm :: after)%list ->
        forEach (fun nm => Index.add example_host (Name nm.1) nm.2) before
          example_root = (Returned tt, s1) ->
        Index.add example_host (Name nm.1) nm.2 s1 = (Thrown, s2) ->
        Index.add example_host (Modules example_modules) VUndef example_root
        = (Thrown, s2)
        /\ modules s2 = modules s1)
  /\ (Part000.add example_host (Modules example_modules) VUndef example_root
      = forEach (fun nm => Part000.add example_host (Name nm.1) nm.2)
          example_modules example_root
      /\ forall before nm after s1 s2,
           example_modules = (before ++ nm :: after)%list ->
           forEach (fun nm => Part000.add example_host (Name nm.1) nm.2)
             before example_root = (Returned tt, s1) ->
           Part000.add example_host (Name nm.1) nm.2 s1 = (Thrown, s2) ->
           Part000.add example_host (Modules example_modules) VUndef
             example_root
           = (Thrown, s2)
           /\ modules s2 = modules s1).
Proof.
  apply (C7_bulk_add_is_sequence example_host example_modules VUndef
           example_root).
  reflexivity.
Defined.

(** The bulk call of the example stops at the second entry, whose factory
    throws; the first entry stays attached and the third is never tried. *)
Lemma bulk_add_example :
  Index.add example_host (Modules example_modules) VUndef example_root
  = (Thrown, example_store).
Proof. reflexivity. Qed.

(** C8. On a definition without an own [watch] key the two variants of
    [separate] agree: given the same definition and the same overrides
    they return equal derived-field mappings and equal plain-field
    mappings, or both fail. *)
Theorem C8_variants_agree_without_watch (H : host) h obj state :
  obj_get "watch" obj = None ->
  Index.computed <$> Index.separate H h obj state
  = Part000.computed <$> Part000.separate H h obj state
  /\ Index.data <$> Index.separate H h obj state
     = Part000.data <$> Part000.separate H h obj state.
Proof.
  intros Hw.
  rewrite Index_separate_partition, Part000_separate_partition.
  rewrite (partition_skip_ext H skip_watch skip_nothing).
  - by destruct (partition _ _ _ _ _ _).
  - intros [k v] Hkv. unfold skip_watch, skip_nothing. simpl.
    apply String.eqb_neq. intros ->.
    apply obj_get_None_keys in Hw. apply Hw.
    rewrite <- (def_entries_keys H obj).
    apply list_elem_of_fmap. by exists ("watch", v).
Qed.

Lemma C8_variants_agree_without_watch_witness :
  Index.computed <$> Index.separate example_host [] example_base VUndef
  = Part000.computed <$> Part000.separate example_host [] example_base VUndef
  /\ Index.data <$> Index.separate example_host [] example_base VUndef
     = Part000.data <$> Part000.separate example_host [] example_base VUndef.
Proof.
  apply (C8_variants_agree_without_watch example_host [] example_base VUndef).
  reflexivity.
Defined.





(** * Further properties *)

(** ** The plugin *)

Lemma install_installed (p : plugin) (vs : list nat) :
  installed p = true -> foldl (fun p vue => install vue p) p vs = p.
Proof.
  intros Hp. induction vs as [|v vs IH]; simpl; [done|].
  unfold install at 2. by rewrite Hp.
Qed.

(** X1. However often [install] is called, and with whatever Vue
    constructors, only the first call registers the mixin: after the calls
    the flag is set and the one constructor that got the mixin is the
    first one. *)
Theorem install_only_first_call (v : nat) (vs : list nat) :
  foldl (fun p vue => install vue p) plugin_loaded (v :: vs)
  = Plugin true [v].
Proof. simpl. by apply install_installed. Qed.

(** X2. A component without a store option of its own takes the [$store]
    of its parent; so along a line of descent below a component whose
    [$store] is truthy, every component has that same [$store]. *)
Theorem store_is_inherited (call : fn -> option value) parent v stores :
  dollar_store parent = Some v ->
  truthy v = true ->
  Forall (fun store => truthy store = false) stores ->
  exists cs,
    create_chain call (Some parent) stores = Some cs
    /\ length cs = length stores
    /\ Forall (fun c => dollar_store c = Some v) cs.
Proof.
  intros Hv Ht Hs. revert parent Hv.
  induction Hs as [|store stores Hstore _ IH]; intros parent Hv; simpl.
  - by exists [].
  - unfold create, beforeCreate. simpl. rewrite Hstore, Hv. simpl.
    rewrite Ht. simpl.
    destruct (IH (set_dollar_store v (Component store (Some parent) None)))
      as (cs & -> & Hlen & Hall); [done|].
    eexists. split; [done|]. simpl. split; [by rewrite Hlen|].
    by apply Forall_cons.
Qed.

Lemma store_is_inherited_witness :
  exists cs,
    create_chain (fun _ => None)
      (Some (Component (VObj []) None (Some (VObj []))))
      [VUndef; VNull; VNum 0] = Some cs
    /\ length cs = length [VUndef; VNull; VNum 0]
    /\ Forall (fun c => dollar_store c = Some (VObj [])) cs.
Proof.
  apply (store_is_inherited (fun _ => None)
           (Component (VObj []) None (Some (VObj []))) (VObj [])
           [VUndef; VNull; VNum 0]).
  - reflexivity.
  - reflexivity.
  - repeat constructor.
Defined.

(** X3. Where no component of a line of descent has a store option, the
    hook sets no [$store] on any of them. *)
Theorem no_store_no_injection (call : fn -> option value) stores :
  Forall (fun store => truthy store = false) stores ->
  exists cs,
    create_chain call None stores = Some cs
    /\ Forall (fun c => dollar_store c = None) cs.
Proof.
  intros Hs.
  assert (Hgen : forall parent,
             match parent with
             | Some p => dollar_store p = None
             | None => True
             end ->
             exists cs,
               create_chain call parent stores = Some cs
               /\ Forall (fun c => dollar_store c = None) cs).
  { induction Hs as [|store stores Hstore _ IH]; intros parent Hp; simpl.
    - by exists [].
    - unfold create, beforeCreate. simpl. rewrite Hstore.
      assert (Hc : (match parent with
                    | Some parent0 =>
                        if truthy (default VUndef (dollar_store parent0))
                        then Some (set_dollar_store
                                     (default VUndef (dollar_store parent0))
                                     (Component store parent None))
                        else Some (Component store parent None)
                    | None => Some (Component store parent None)
                    end) = Some (Component store parent None)).
      { destruct parent as [p|]; [|done]. by rewrite Hp. }
      rewrite Hc. simpl.
      destruct (IH (Some (Component store parent None))) as (cs & -> & Hall);
        [done|].
      eexists. split; [done|]. by apply Forall_cons. }
  by apply (Hgen None).
Qed.

Lemma no_store_no_injection_witness :
  exists cs,
    create_chain (fun _ => None) None [VUndef; VNull] = Some cs
    /\ Forall (fun c => dollar_store c = None) cs.
Proof.
  apply (no_store_no_injection (fun _ => None) [VUndef; VNull]).
  repeat constructor.
Defined.

(** ** The helpers of [state] *)

Lemma elem_of_fold_set {V} (arr acc : list (string * V)) x :
  x ∈ fold_left (fun a kv => obj_set kv.1 kv.2 a) arr acc ->
  x ∈ acc \/ x ∈ arr.
Proof.
  revert acc. induction arr as [|[k v] arr IH]; simpl; intros acc Hx;
    [by left|].
  destruct (IH _ Hx) as [Hx'|Hx'].
  - apply elem_of_obj_set in Hx' as [-> | Hx'];
      [right; apply list_elem_of_here|by left].
  - right. by apply list_elem_of_further.
Qed.

Lemma elem_of_fromPairs (arr : list (string * value)) kv :
  kv ∈ fromPairs arr -> kv ∈ arr.
Proof.
  intros Hkv. apply elem_of_fold_set in Hkv as [Hkv|Hkv]; [|done].
  by apply elem_of_nil in Hkv.
Qed.

Lemma obj_get_fromPairs (arr : list (string * value)) k :
  obj_get k (fromPairs arr) = obj_get k (rev arr).
Proof.
  unfold fromPairs. rewrite obj_get_fold_set.
  by destruct (obj_get k (rev arr)).
Qed.

(** X4. [fromPairs] builds an object out of pairs: no key occurs twice in
    it, a key has the value of the last pair that names it, and it holds
    nothing that was not among the pairs. *)
Theorem fromPairs_last_pair_wins (arr : list (string * value)) :
  distinct_keys (fromPairs arr)
  /\ (forall k, obj_get k (fromPairs arr) = obj_get k (rev arr))
  /\ (forall kv, kv ∈ fromPairs arr -> kv ∈ arr).
Proof.
  split; [apply distinct_keys_fromPairs|]. split.
  - intros k. apply obj_get_fromPairs.
  - apply elem_of_fromPairs.
Qed.

(** X5. [filterFunctions] on an object keeps exactly the fields whose value
    is not a function, with their values, and filtering the result again
    changes nothing. *)
Theorem filterFunctions_keeps_plain_fields (H : host) h (o : object) :
  distinct_keys o ->
  exists r,
    filterFunctions H h (VObj o) = Some r
    /\ distinct_keys r
    /\ (forall k, obj_get k r = plain_field o k)
    /\ exists r',
         filterFunctions H h (VObj r) = Some r'
         /\ forall k, obj_get k r' = obj_get k r.
Proof.
  intros Hd. rewrite filterFunctions_object. eexists. split; [done|].
  split; [apply distinct_keys_fromPairs|].
  split; [intros k; by apply obj_get_filtered|].
  rewrite filterFunctions_object. eexists. split; [done|].
  intros k. rewrite obj_get_filtered by apply distinct_keys_fromPairs.
  unfold plain_field at 1. rewrite obj_get_filtered by done.
  unfold plain_field. destruct (obj_get k o) as [v|]; [|done].
  destruct (isFunction v) eqn:E; [done|]. by rewrite E.
Qed.

Lemma filterFunctions_keeps_plain_fields_witness :
  exists r,
    filterFunctions example_host [] (VObj (i_data (root example_root)))
    = Some r
    /\ distinct_keys r
    /\ (forall k, obj_get k r = plain_field (i_data (root example_root)) k)
    /\ exists r',
         filterFunctions example_host [] (VObj r) = Some r'
         /\ forall k, obj_get k r' = obj_get k r.
Proof.
  apply (filterFunctions_keeps_plain_fields example_host []
           (i_data (root example_root))).
  by_computation.
Defined.

(** ** What [state] holds and when it throws *)

Lemma obj_get_is_Some_keys {V} (k : string) (o : list (string * V)) :
  k ∈ o.*1 -> is_Some (obj_get k o).
Proof.
  intros Hk. destruct (obj_get k o) eqn:E; [by eexists|].
  by apply obj_get_None_keys in E.
Qed.

Lemma obj_get_rev_None {V} (k : string) (o : list (string * V)) :
  obj_get k o = None -> obj_get k (rev o) = None.
Proof.
  rewrite !obj_get_None_keys. intros Hk Hin. apply Hk.
  apply list_elem_of_fmap in Hin as (x & -> & Hx).
  apply list_elem_of_fmap. exists x. split; [done|].
  apply list_elem_of_In. apply list_elem_of_In in Hx.
  by apply in_rev.
Qed.

Lemma filterFunctions_no_function (H : host) h x o :
  filterFunctions H h x = Some o ->
  Forall (fun kv => isFunction kv.2 = false) o.
Proof.
  unfold filterFunctions. destruct (entries_of H h x) as [e|]; [|done].
  simpl. intros [= <-]. apply Forall_forall. intros kv Hkv.
  apply elem_of_fromPairs in Hkv.
  apply list_elem_of_In, filter_In in Hkv as [_ Hkv].
  by apply negb_true_iff.
Qed.

Lemma module_pair_object (H : host) h nm y :
  module_pair H h nm = Some y ->
  exists o, y.2 = VObj o /\ Forall (fun kv => isFunction kv.2 = false) o.
Proof.
  unfold module_pair.
  destruct (get_prop H h nm.2 "$data") as [d|]; [|done]. simpl.
  destruct (filterFunctions H h _) as [o|] eqn:E; [|done]. simpl.
  intros [= <-]. exists o. split; [done|].
  by eapply filterFunctions_no_function.
Qed.

(** X6. Whenever [state] returns, no value of the result is a function,
    and under the name of every registered module there is an object none
    of whose values is a function. *)
Theorem state_holds_no_function (H : host) s st :
  state H s = Some st ->
  (forall k v, obj_get k st = Some v -> isFunction v = false)
  /\ (forall k, k ∈ (modules s).*1 ->
        exists sub,
          obj_get k st = Some (VObj sub)
          /\ Forall (fun kv => isFunction kv.2 = false) sub).
Proof.
  unfold state. rewrite filterFunctions_object. simpl.
  destruct (mapM _ _) as [ps|] eqn:Hps; [|done]. simpl.
  intros [= <-]. apply mapM_Some in Hps.
  assert (Hobj : forall y, y ∈ ps ->
            exists o, y.2 = VObj o
                      /\ Forall (fun kv => isFunction kv.2 = false) o).
  { intros y Hy. apply list_elem_of_lookup in Hy as [i Hi].
    destruct (Forall2_lookup_r _ _ _ _ _ Hps Hi) as (x & _ & Hx).
    by eapply module_pair_object. }
  split.
  - intros k v Hkv. apply obj_get_Some_elem, elem_of_fold_set in Hkv.
    destruct Hkv as [Hkv|Hkv].
    + assert (Hf := filterFunctions_no_function H (heap s)
                      (VObj (i_data (root s))) _ eq_refl).
      rewrite Forall_forall in Hf. by apply (Hf (k, v)).
    + apply elem_of_fromPairs in Hkv.
      destruct (Hobj _ Hkv) as (o & Ho & _). simpl in Ho. by subst v.
  - intros k Hk. unfold obj_assign. rewrite obj_get_fold_set.
    rewrite obj_get_rev by apply distinct_keys_fromPairs.
    rewrite obj_get_fromPairs.
    assert (Hin : k ∈ (rev ps).*1).
    { rewrite <- (module_pairs_keys H _ _ _ Hps) in Hk.
      apply list_elem_of_fmap in Hk as (x & -> & Hx).
      apply list_elem_of_fmap. exists x. split; [done|].
      apply list_elem_of_In. rewrite <- in_rev. by apply list_elem_of_In. }
    destruct (obj_get_is_Some_keys _ _ Hin) as [v Hv]. rewrite Hv.
    apply obj_get_Some_elem in Hv.
    apply list_elem_of_In in Hv. rewrite <- in_rev in Hv.
    apply list_elem_of_In in Hv.
    destruct (Hobj _ Hv) as (o & Ho & Hf). simpl in Ho. subst v.
    by exists o.
Qed.

Lemma state_holds_no_function_witness :
  (forall k v,
      obj_get k [("x", VNum 1); ("m", VObj [("y", VNum 2)])] = Some v ->
      isFunction v = false)
  /\ (forall k, k ∈ (modules example_store).*1 ->
        exists sub,
          obj_get k [("x", VNum 1); ("m", VObj [("y", VNum 2)])]
          = Some (VObj sub)
          /\ Forall (fun kv => isFunction kv.2 = false) sub).
Proof.
  apply (state_holds_no_function example_host example_store).
  reflexivity.
Defined.


(** ** More on the partition *)

Lemma partition_keys_from_entries (H : host) skip h obj state es res k :
  partition H skip h obj state es = Some res ->
  (obj_get k es = None ->
   obj_get k res.1 = None /\ obj_get k res.2 = None)
  /\ (obj_get k res.1 = None \/ obj_get k res.2 = None).
Proof.
  intros Hres.
  destruct (partition_lookup H skip h obj state es res k Hres) as [H1 H2].
  split.
  - intros Hk. apply obj_get_rev_None in Hk. by rewrite H1, H2, Hk.
  - rewrite H1, H2. destruct (obj_get k (rev es)); [|by left].
    destruct (skip k); [by left|].
    destruct (descriptor_get obj k); [by right|by left].
Qed.

Lemma obj_get_def_entries_None (H : host) obj k :
  obj_get k obj = None -> obj_get k (def_entries H obj) = None.
Proof. intros Hk. by rewrite obj_get_def_entries, Hk. Qed.

(** X8. The outputs of [separate] have no key of their own: a key that the
    definition lacks is in neither output, whatever the overrides hold
    under it, and no key is in both outputs. *)
Theorem separate_keys_come_from_definition (H : host) h obj state sep sep' :
  Index.separate H h obj state = Some sep ->
  Part000.separate H h obj state = Some sep' ->
  forall k,
    (obj_get k obj = None ->
     obj_get k (Index.data sep) = None
     /\ obj_get k (Index.computed sep) = None
     /\ obj_get k (Part000.data sep') = None
     /\ obj_get k (Part000.computed sep') = None)
    /\ (obj_get k (Index.computed sep) = None
        \/ obj_get k (Index.data sep) = None)
    /\ (obj_get k (Part000.computed sep') = None
        \/ obj_get k (Part000.data sep') = None).
Proof.
  rewrite Index_separate_partition, Part000_separate_partition.
  destruct (partition H skip_watch _ _ _ _) as [a|] eqn:Ha; [|done].
  destruct (partition H skip_nothing _ _ _ _) as [b|] eqn:Hb; [|done].
  intros [= <-] [= <-] k. simpl.
  destruct (partition_keys_from_entries H _ _ _ _ _ _ k Ha) as [Ha1 Ha2].
  destruct (partition_keys_from_entries H _ _ _ _ _ _ k Hb) as [Hb1 Hb2].
  split; [|done].
  intros Hk. apply (obj_get_def_entries_None H) in Hk.
  destruct (Ha1 Hk), (Hb1 Hk). done.
Qed.

Lemma separate_keys_come_from_definition_witness :
  (obj_get "b" definition_a = None ->
   obj_get "b" [("a", VNum 5)] = None
   /\ obj_get "b" ([] : list (string * fn)) = None
   /\ obj_get "b" [("a", VNum 5)] = None
   /\ obj_get "b" ([] : list (string * fn)) = None)
  /\ (obj_get "b" ([] : list (string * fn)) = None
      \/ obj_get "b" [("a", VNum 5)] = None)
  /\ (obj_get "b" ([] : list (string * fn)) = None
      \/ obj_get "b" [("a", VNum 5)] = None).
Proof.
  apply (separate_keys_come_from_definition example_host [] definition_a
           (VObj [("a", VNum 5); ("b", VNum 7)])
           (Index.Separated [] [("a", VNum 5)] VUndef)
           (Part000.Separated [] [("a", VNum 5)])
           eq_refl eq_refl "b").
Defined.





(** ** The root store as the constructor leaves it *)

Lemma default_object_idem state :
  default_object (default_object state) = default_object state.
Proof. by destruct state. Qed.




(** X11. A plain field named [state] hides the aggregate: in a store built
    from a definition with a stored key [state], [this.state] is that
    field, with its override if that is truthy. *)
Theorem plain_field_named_state_hides_aggregate (H : host) base ov context
    v s s' :
  distinct_keys base ->
  obj_get "state" base = Some (Stored v) ->
  Index.StoreFactory H base ov = Some s ->
  Part000.StoreFactory H base ov context = Some s' ->
  exists sv,
    get_prop H [] (default_object ov) "state" = Some sv
    /\ vm_get H s "state" = Some (if truthy sv then sv else v)
    /\ vm_get H s' "state" = Some (if truthy sv then sv else v).
Proof.
  intros Hd Hv. unfold Index.StoreFactory, Part000.StoreFactory.
  destruct (Index.separate _ _ _ _) as [sep|] eqn:E; [|done].
  destruct (Part000.separate _ _ _ _) as [sep'|] eqn:E'; [|done].
  intros [= <-] [= <-].
  destruct (Index_separate_routed H _ _ _ _ "state" _ Hd E Hv)
    as [_ (sv & Hsv & Hdata)]; [done|].
  destruct (Part000_separate_routed H _ _ _ _ "state" _ Hd E' Hv)
    as [_ (sv' & Hsv' & Hdata')].
  rewrite default_object_idem in Hsv, Hsv'.
  rewrite Hsv in Hsv'. injection Hsv' as <-.
  exists sv. split; [done|].
  split; apply vm_get_proxied; unfold proxied; simpl; done.
Qed.

Lemma plain_field_named_state_hides_aggregate_witness :
  exists sv,
    get_prop example_host [] (default_object VUndef) "state" = Some sv
    /\ vm_get example_host
         (Store (Instance [("state", VNum 3)] [("state", StateGetter)]
                          VUndef VUndef) [] [] (VObj []) VUndef [] [])
         "state"
       = Some (if truthy sv then sv else VNum 3)
    /\ vm_get example_host
         (Store (Instance [("state", VNum 3)] [("state", StateGetter)]
                          VUndef VUndef) [] [] (VObj []) VUndef [] [])
         "state"
       = Some (if truthy sv then sv else VNum 3).
Proof.
  apply (plain_field_named_state_hides_aggregate example_host
           [("state", Stored (VNum 3))] VUndef VUndef (VNum 3)).
  - by_computation.
  - reflexivity.
  - reflexivity.
  - reflexivity.
Defined.

(** ** What [add] never undoes *)

Lemma extends_refl s : extends s s.
Proof. by repeat split. Qed.

Lemma extends_trans s1 s2 s3 : extends s1 s2 -> extends s2 s3 -> extends s1 s3.
Proof.
  intros (Hh & Hc & Hm & Ho & Hg & Hd & Hv & Hx)
         (Hh' & Hc' & Hm' & Ho' & Hg' & Hd' & Hv' & Hx').
  split; [by etrans|]. split; [by etrans|].
  split; [intros k Hk; by apply Hm', Hm|].
  split; [intros k Hk; by apply Ho', Ho|].
  split; [by rewrite Hg'|]. split; [by rewrite Hd'|].
  split; [by rewrite Hv'|by rewrite Hx'].
Qed.

Lemma is_Some_obj_get_set {V} (k k' : string) (v : V) o :
  is_Some (obj_get k' o) -> is_Some (obj_get k' (obj_set k v o)).
Proof. rewrite obj_get_set. by destruct (k' =? k). Qed.

Lemma vm_set_own_keys (H : host) name v s s' k :
  vm_set H name v s = Some s' ->
  is_Some (obj_get k (own s)) -> is_Some (obj_get k (own s')).
Proof.
  unfold vm_set. intros Hs Hk.
  repeat match type of Hs with
         | (if ?b then _ else _) = _ => destruct b
         | match ?x with _ => _ end = _ => destruct x
         end;
    try done; injection Hs as <-; simpl; try done;
    by apply is_Some_obj_get_set.
Qed.

Lemma vm_set_extends (H : host) name v s s' :
  vm_set H name v s = Some s' -> extends s s'.
Proof.
  intros Hs.
  pose proof (vm_set_frame H _ _ _ _ Hs) as (Hm & Hh & Hc & Hv & Hx & Hg & Hd).
  split; [by rewrite Hh|]. split; [by rewrite Hc|].
  split; [by rewrite Hm|].
  split; [intros k; by apply (vm_set_own_keys H name v)|]. done.
Qed.

Lemma assign_and_register_extends (H : host) name c r s s' :
  bind (assign_new H name c) (fun _ => register H name) s = (r, s') ->
  extends s s'.
Proof.
  assert (Ha : extends s (set_heap (heap s ++ [c]) s)).
  { split; [by apply prefix_app_r|]. by repeat split. }
  run. destruct (vm_set H name _ _) as [s2|] eqn:Hset; simpl.
  - apply vm_set_extends in Hset.
    destruct (vm_get H s2 name); simpl; intros [= <- <-].
    + apply (extends_trans _ _ _ Ha), (extends_trans _ _ _ Hset).
      split; [done|]. split; [done|].
      split; [intros k; by apply is_Some_obj_get_set|]. by repeat split.
    + by apply (extends_trans _ _ _ Ha).
  - by intros [= <- <-].
Qed.

Lemma add_built_extends (H : host)
    (build : string -> store -> option container) name r s s' :
  add_built H build name s = (r, s') -> extends s s'.
Proof.
  unfold add_built, attach_built, bind at 1, lift at 1.
  destruct (vm_get H s name) as [cur|].
  - destruct (truthy cur).
    + intros [= <- <-]. split; [done|].
      split; [by apply prefix_app_r|]. by repeat split.
    + unfold bind at 1, lift at 1. destruct (build name s) as [c|].
      * apply assign_and_register_extends.
      * intros [= <- <-]. apply extends_refl.
  - intros [= <- <-]. apply extends_refl.
Qed.

Lemma forEach_extends {A} (f : A -> action unit) (l : list A) :
  (forall x r s s', f x s = (r, s') -> extends s s') ->
  forall r s s', forEach f l s = (r, s') -> extends s s'.
Proof.
  intros Hf. induction l as [|x l IH]; intros r s s'; simpl.
  - intros [= <- <-]. apply extends_refl.
  - unfold bind. destruct (f x s) as [[[]|] s1] eqn:Hx.
    + intros Hl. eapply extends_trans; [by eapply Hf|by eapply IH].
    + intros [= <- <-]. by eapply Hf.
Qed.

Lemma this_add_extends (H : host) (single : action unit) r s s' :
  (forall r s s', single s = (r, s') -> extends s s') ->
  bind (lift (fun s => vm_get H s "add"))
       (fun f => match f with
                 | VFun BoundAdd => single
                 | _ => throw
                 end) s = (r, s') ->
  extends s s'.
Proof.
  intros Hs. unfold bind, lift, throw.
  destruct (vm_get H s "add") as [f|]; [|intros [= <- <-]; apply extends_refl].
  destruct f as [| | | | | |[]| |]; try (intros [= <- <-]; apply extends_refl).
  apply Hs.
Qed.

(** X12. Whatever [add] is called with, and whether it returns or throws,
    in both variants the store it leaves still holds what it held: no
    container and no console line is dropped or moved, every registered
    module name stays registered, and the root keeps its getters, its
    field names, the overrides and the context. *)
Theorem add_only_extends (H : host) (name : name_arg) module r s s' :
  Index.add H name module s = (r, s')
  \/ Part000.add H name module s = (r, s') ->
  extends s s'.
Proof.
  destruct name as [name|ms|]; simpl.
  - rewrite Index_add_single_built, Part000_add_single_built.
    intros [Hrun|Hrun]; by eapply add_built_extends.
  - intros [Hrun|Hrun]; revert Hrun; apply forEach_extends;
      intros nm r0 s0 s0'.
    + apply this_add_extends. intros r1 s1 s1'.
      rewrite Index_add_single_built. apply add_built_extends.
    + apply this_add_extends. intros r1 s1 s1'.
      rewrite Part000_add_single_built. apply add_built_extends.
  - unfold throw. intros [[= <- <-]|[= <- <-]]; apply extends_refl.
Qed.

Lemma add_only_extends_witness :
  extends example_root
    (Index.add example_host (Modules example_modules) VUndef example_root).2.
Proof.
  apply (add_only_extends example_host (Modules example_modules) VUndef
           Thrown).
  left. reflexivity.
Defined.

(** ** What a call of [add] for one name leaves alone *)





Lemma state_Some_readable (H : host) s st :
  state H s = Some st -> readable_registry H s.
Proof.
  unfold state. rewrite filterFunctions_object. simpl.
  destruct (mapM _ _) as [ps|] eqn:Hps; [|done]. intros _.
  apply (mapM_is_Some_1 (module_pair H (heap s))). rewrite Hps.
  by eexists.
Qed.














(** ** Assigning a root field *)

Lemma is_reserved_not_data k : is_reserved k = false -> (k =? "$data") = false.
Proof. intros Hr. apply String.eqb_neq. by intros ->. Qed.

(** X16. [state] is a view of the root's fields, not a copy: after
    [this[k] = v] for a root field [k] that Vue proxies, [this[k]] is [v]
    and [state] holds [v] under [k] (nothing, if [v] is a function),
    unless a module is registered under [k], whose entry stays; every
    other entry of [state] is as before. *)
Theorem root_assignment_shows_in_state (H : host) s k v st :
  distinct_keys (i_data (root s)) ->
  distinct_keys (modules s) ->
  obj_has k (i_data (root s)) = true ->
  is_reserved k = false ->
  state H s = Some st ->
  exists s' st',
    vm_set H k v s = Some s'
    /\ vm_get H s' k = Some v
    /\ state H s' = Some st'
    /\ (obj_get k (modules s) = None ->
        obj_get k st' = if isFunction v then None else Some v)
    /\ forall k', k' <> k \/ is_Some (obj_get k (modules s)) ->
         obj_get k' st' = obj_get k' st.
Proof.
  intros Hd Hdm Hk Hr Hst.
  set (s' := set_root_data (obj_replace k v (i_data (root s))) s).
  assert (Hset : vm_set H k v s = Some s').
  { unfold vm_set. by rewrite (is_reserved_not_data k Hr), Hk, Hr. }
  assert (Hget : vm_get H s' k = Some v).
  { apply vm_get_proxied. simpl. apply proxied_replace. by rewrite Hk, Hr. }
  assert (Hd' : distinct_keys (i_data (root s'))).
  { simpl. by apply distinct_keys_replace. }
  destruct (state_returns H s') as [st' Hst'].
  { apply (state_Some_readable H s st Hst). }
  assert (Hlook : forall k',
             obj_get k' st' =
             match obj_get k' (modules s) with
             | Some m => snd <$> module_pair H (heap s) (k', m)
             | None => plain_field (obj_replace k v (i_data (root s))) k'
             end).
  { intros k'. apply (state_lookup H s' st' k' Hd' Hdm Hst'). }
  exists s', st'. repeat (split; [done|]). split.
  - intros Hm. rewrite Hlook, Hm. unfold plain_field.
    by rewrite obj_get_replace, String.eqb_refl, Hk.
  - intros k' Hk'. rewrite Hlook, (state_lookup H s st k' Hd Hdm Hst).
    destruct (obj_get k' (modules s)) as [m|] eqn:Hm; [done|].
    destruct Hk' as [Hne | [m Hm']].
    + unfold plain_field. rewrite obj_get_replace.
      by apply String.eqb_neq in Hne as ->.
    + destruct (decide (k' = k)) as [->|Hne]; [by rewrite Hm in Hm'|].
      unfold plain_field. rewrite obj_get_replace.
      by apply String.eqb_neq in Hne as ->.
Qed.

Lemma root_assignment_shows_in_state_witness :
  exists s' st',
    vm_set example_host "x" (VNum 7) example_store = Some s'
    /\ vm_get example_host s' "x" = Some (VNum 7)
    /\ state example_host s' = Some st'
    /\ (obj_get "x" (modules example_store) = None ->
        obj_get "x" st' = if isFunction (VNum 7) then None else Some (VNum 7))
    /\ forall k', k' <> "x" \/ is_Some (obj_get "x" (modules example_store)) ->
         obj_get k' st'
         = obj_get k' [("x", VNum 1); ("m", VObj [("y", VNum 2)])].
Proof.
  apply (root_assignment_shows_in_state example_host example_store "x"
           (VNum 7)).
  - by_computation.
  - by_computation.
  - reflexivity.
  - reflexivity.
  - reflexivity.
Defined.

(** ** Where the two variants agree *)

Lemma separate_agree (H : host) h obj state :
  obj_get "watch" obj = None ->
  Index.separate H h obj state
  = (fun sep => Index.Separated (Part000.computed sep) (Part000.data sep)
                  VUndef)
      <$> Part000.separate H h obj state.
Proof.
  intros Hw. rewrite Index_separate_partition, Part000_separate_partition.
  rewrite (partition_skip_ext H skip_watch skip_nothing).
  - unfold def_get. rewrite Hw. by destruct (partition _ _ _ _ _ _).
  - intros kv Hkv. unfold skip_watch, skip_nothing.
    apply String.eqb_neq. intros Heq.
    apply (obj_get_def_entries_None H) in Hw.
    apply obj_get_None_keys in Hw. apply Hw. rewrite <- Heq.
    apply list_elem_of_fmap. by exists kv.
Qed.

Lemma Part000_separate_lacks (H : host) h obj state sep k :
  obj_get k obj = None ->
  Part000.separate H h obj state = Some sep ->
  obj_get k (Part000.data sep) = None.
Proof.
  intros Hk. rewrite Part000_separate_partition.
  destruct (partition _ _ _ _ _ _) as [res|] eqn:Hres; [|done].
  intros [= <-]. simpl.
  destruct (partition_keys_from_entries H _ _ _ _ _ _ k Hres) as [Hn _].
  by destruct Hn as [_ Hn]; [apply obj_get_def_entries_None|].
Qed.

Lemma add_built_ext (H : host)
    (build build' : string -> store -> option container) name s :
  build name s = build' name s ->
  add_built H build name s = add_built H build' name s.
Proof.
  intros Hb. unfold add_built, attach_built, bind, lift.
  destruct (vm_get H s name) as [cur|]; [|done].
  destruct (truthy cur); [done|]. by rewrite Hb.
Qed.

(** X17. On a definition without a key [watch] the two constructors build
    the same store, when [src/unnamed/part_000] is given no context. *)
Theorem constructors_agree_without_watch (H : host) base ov :
  obj_get "watch" base = None ->
  Index.StoreFactory H base ov = Part000.StoreFactory H base ov VUndef.
Proof.
  intros Hw. unfold Index.StoreFactory, Part000.StoreFactory.
  rewrite (separate_agree H _ _ _ Hw).
  by destruct (Part000.separate _ _ _ _).
Qed.

Lemma constructors_agree_without_watch_witness :
  Index.StoreFactory example_host example_base VUndef
  = Part000.StoreFactory example_host example_base VUndef VUndef.
Proof.
  apply (constructors_agree_without_watch example_host example_base VUndef).
  reflexivity.
Defined.

(** X18. For a module whose factory gives the same definition with and
    without the context argument, and whose definition has neither a key
    [watch] nor a key [created], [add] for one name does the same in both
    variants: the same outcome and the same store. *)
Theorem add_agrees_without_watch_and_created (H : host) name module s obj :
  call_module H module [] s = Some obj ->
  call_module H module [context s] s = Some obj ->
  obj_get "watch" obj = None ->
  obj_get "created" obj = None ->
  Index.add H (Name name) module s = Part000.add H (Name name) module s.
Proof.
  intros Hobj Hobj' Hw Hc. simpl.
  rewrite Index_add_single_built, Part000_add_single_built.
  apply add_built_ext. unfold Index_build, Part000_build.
  rewrite Hobj, Hobj'. simpl.
  destruct (get_prop H (heap s) (overrides s) name) as [sub|]; [|done].
  simpl. rewrite (separate_agree H _ _ _ Hw).
  destruct (Part000.separate H (heap s) obj sub) as [sep|] eqn:Hsep; [|done].
  simpl. f_equal.
  unfold Index_container, Part000_container, Part000.wants_instance. simpl.
  rewrite (Part000_separate_lacks H _ _ _ _ "created" Hc Hsep). simpl.
  by rewrite orb_false_r.
Qed.

Lemma add_agrees_without_watch_and_created_witness :
  Index.add example_host (Name "m") (VFun (UserFn 1)) example_root
  = Part000.add example_host (Name "m") (VFun (UserFn 1)) example_root.
Proof.
  apply (add_agrees_without_watch_and_created example_host "m"
           (VFun (UserFn 1)) example_root
           [("y", Stored (VNum 2)); ("z", Accessor (Some (UserFn 7)))]).
  - reflexivity.
  - reflexivity.
  - reflexivity.
  - reflexivity.
Defined.

(** ** A module under the name of a getter *)





(** ** The overrides of a module *)



(** ** The properties without a precondition, on the worked example *)

Lemma install_only_first_call_witness :
  foldl (fun p vue => install vue p) plugin_loaded [2; 5; 2]%nat
  = Plugin true [2%nat].
Proof. apply (install_only_first_call 2 [5; 2]%nat). Defined.

Lemma fromPairs_last_pair_wins_witness :
  distinct_keys (fromPairs [("a", VNum 1); ("b", VNum 2); ("a", VNum 3)])
  /\ (forall k,
        obj_get k (fromPairs [("a", VNum 1); ("b", VNum 2); ("a", VNum 3)])
        = obj_get k (rev [("a", VNum 1); ("b", VNum 2); ("a", VNum 3)]))
  /\ (forall kv,
        kv ∈ fromPairs [("a", VNum 1); ("b", VNum 2); ("a", VNum 3)] ->
        kv ∈ [("a", VNum 1); ("b", VNum 2); ("a", VNum 3)]).
Proof.
  apply (fromPairs_last_pair_wins
           [("a", VNum 1); ("b", VNum 2); ("a", VNum 3)]).
Defined.

